(** * TravGridObjective: traversability-grid cost objective

    Shallow embedding of [src/ompl/objectives/TravGridObjective.hpp]
    (namespace [motion_planning_libraries]) and the properties of its
    [stateCost] and [motionCost] member functions.

    A C++ [double] is an IEEE-754 binary64 value, modelled by the Standard
    Library's [spec_float] with [prec = 53] and [emax = 1024]; arithmetic is
    the correctly rounded (nearest, ties to even) arithmetic of [SpecFloat].
    Exceptions and the warning log are threaded through a small
    writer/error monad. *)

From Stdlib Require Import ZArith Bool List String Lia Lra Reals.
From Stdlib Require Import SpecFloat.
Import ListNotations.

Local Open Scope Z_scope.

(** ** Doubles *)

Module Double.

Definition prec : Z := 53.
Definition emax : Z := 1024.

Definition double : Type := spec_float.

Definition add : double -> double -> double := SFadd prec emax.
Definition sub : double -> double -> double := SFsub prec emax.
Definition mul : double -> double -> double := SFmul prec emax.
Definition div : double -> double -> double := SFdiv prec emax.
Definition sqrt : double -> double := SFsqrt prec emax.

(** [a < b], [a <= b], [a == b], [a > b], [a >= b]; every comparison
    with a NaN is false. *)
Definition lt (a b : double) : bool := SFltb a b.
Definition le (a b : double) : bool := SFleb a b.
Definition eq (a b : double) : bool := SFeqb a b.
Definition gt (a b : double) : bool := SFltb b a.
Definition ge (a b : double) : bool := SFleb b a.

Definition zero : double := S754_zero false.
Definition one : double := S754_finite false 4503599627370496 (-52).
Definition half : double := S754_finite false 4503599627370496 (-53).

(** [std::numeric_limits<double>::max()] and [::infinity()]. *)
Definition max : double := SFmax_float prec emax.
Definition infinity : double := S754_infinity false.

(** Conversion of an integer to [double] (rounded when it has more than
    53 significant bits). *)
Definition of_int (z : Z) : double := binary_normalize prec emax z 0 false.

(** Conversion of a [double] to an integral index: truncation toward
    zero.  Converting a NaN or an infinity is undefined in C++. *)
Definition to_index (d : double) : option Z :=
  match d with
  | S754_zero _ => Some 0
  | S754_finite s m e => Some (cond_Zopp s (Z.shiftl (Zpos m) e))
  | S754_infinity _ | S754_nan => None
  end.

Definition is_nan (d : double) : bool :=
  match d with S754_nan => true | _ => false end.

Definition is_finite (d : double) : bool :=
  match d with S754_zero _ | S754_finite _ _ _ => true | _ => false end.

(** Sign bit clear (NaN carries no sign in [spec_float]). *)
Definition sign_clear (d : double) : bool :=
  match d with
  | S754_nan => true
  | S754_zero s | S754_infinity s | S754_finite s _ _ => negb s
  end.

(** A well-formed binary64 datum: finite values are in canonical form. *)
Definition valid (d : double) : bool := valid_binary prec emax d.

(** A well-formed finite value above zero. *)
Definition pos_finite (d : double) : bool :=
  match d with
  | S754_finite false m e => bounded prec emax m e
  | _ => false
  end.

(** [+0], a well-formed positive finite value, or [+infinity]. *)
Definition nonneg (d : double) : bool :=
  match d with
  | S754_zero false | S754_infinity false => true
  | S754_finite false m e => bounded prec emax m e
  | _ => false
  end.

End Double.

Definition double : Type := Double.double.

(** ** 32-bit integers *)

(** Wrap-around of a machine integer to [int] (two's complement). *)
Definition to_int32 (z : Z) : Z := (z + 2 ^ 31) mod 2 ^ 32 - 2 ^ 31.

(** Wrap-around to [uint8_t]. *)
Definition to_uint8 (z : Z) : Z := z mod 2 ^ 8.

(** ** Exceptions, undefined behaviour and the log *)

Inductive exception : Type :=
| runtime_error (what : string).

Inductive outcome (A : Type) : Type :=
| Ok (a : A)
| Throw (e : exception)
| Undefined.

Arguments Ok {A} a.
Arguments Throw {A} e.
Arguments Undefined {A}.

(** One [LOG_WARN(fmt, args...)] call of base-logging. *)
Inductive log_entry : Type :=
| LOG_WARN (fmt : string) (args : list double).

(** A computation: the warnings it logged, in order, and how it ended. *)
Definition M (A : Type) : Type := (list log_entry * outcome A)%type.

Definition ret {A} (a : A) : M A := ([], Ok a).
Definition throw {A} (e : exception) : M A := ([], Throw e).
Definition undefined {A} : M A := ([], Undefined).
Definition log (l : log_entry) : M unit := ([l], Ok tt).

Definition bind {A B} (c : M A) (k : A -> M B) : M B :=
  match c with
  | (l, Ok a) => let (l', r) := k a in (l ++ l', r)
  | (l, Throw e) => (l, Throw e)
  | (l, Undefined) => (l, Undefined)
  end.

Notation "x <- c ;; k" := (bind c (fun x => k))
  (at level 61, c at next level, right associativity).
Notation "c ;;; k" := (bind c (fun _ => k))
  (at level 61, right associativity).

(** Dereferencing a possibly null pointer. *)
Definition deref {A} (p : option A) : M A :=
  match p with Some a => ret a | None => undefined end.

(** ** Configuration, grid and states *)

(** Modelled from the spec: [enum EnvType] of Config.hpp, which is not
    under src/.  The three enumerators the [switch] statements name are the
    spec's [PlanarXY], [PlanarXYTheta] and [FootprintAwareXYTheta];
    [ENV_OTHER] stands for every other enumerator, which reaches
    [default]. *)
Inductive EnvType : Type :=
| ENV_XY
| ENV_XYTHETA
| ENV_SHERPA
| ENV_OTHER.

(** Modelled from the spec: [Config] is declared in Config.hpp, which is
    not under src/.  These are the members [stateCost] and [motionCost]
    read, typed as the spec's mobility parameters: the forward speed
    [mMobility.mSpeed], the number of footprint classes, the time to move
    the footprint from its minimum to its maximum, and the fixed penalty of
    a change. *)
Record Mobility : Type := mkMobility {
  mSpeed : double
}.

Record Config : Type := mkConfig {
  mEnvType : EnvType;
  mMobility : Mobility;
  mNumFootprintClasses : Z;          (* unsigned int *)
  mTimeToAdaptFootprint : double;
  mAdaptFootprintPenalty : double
}.

(** Modelled from the spec: [envire::TraversabilityGrid] belongs to the
    grid provider and is not under src/.  These are the accessors the
    objective calls: the number of cells along each axis, the metric scale,
    and the drivability of a cell class. *)
Record TraversabilityClass : Type := mkTraversabilityClass {
  getDrivability : double
}.

Record TraversabilityGrid : Type := mkTraversabilityGrid {
  getCellSizeX : Z;                  (* size_t: cells along x *)
  getCellSizeY : Z;                  (* size_t: cells along y *)
  getScaleX : double;                (* metric length of a cell edge *)
  getTraversabilityClass : Z -> TraversabilityClass
}.

(** Modelled from the spec: [TravData], the grid's own array of cell
    classes ([envire::TraversabilityGrid::ArrayType], not under src/), read
    as [data[y][x]] through the shared pointer [mpTravData].  It has
    [getCellSizeY] rows of [getCellSizeX] cells, so an index that passed
    the bounds check is in range. *)
Definition TravData : Type := Z -> Z -> Z.

(** Modelled from the spec: the state types the three [case]s cast to
    (OMPL's [RealVectorStateSpace] and [SE2StateSpace], and
    [SherpaStateSpace], none under src/), with what the objective reads of
    them: [values], [getX], [getY] and, for the footprint-aware space,
    [getFootprintClass]. *)
Inductive State : Type :=
| RealVectorState (values : list double)
| SE2State (x y yaw : double)
| SherpaState (x y yaw : double) (footprint_class : Z).

(** [s->as<T>()] is an unchecked cast: using a state of another space is
    undefined. *)
Definition as_RealVector (s : State) : M (list double) :=
  match s with RealVectorState v => ret v | _ => undefined end.

Definition as_SE2 (s : State) : M (double * double) :=
  match s with SE2State x y _ => ret (x, y) | _ => undefined end.

Definition as_Sherpa (s : State) : M (double * double * Z) :=
  match s with SherpaState x y _ c => ret (x, y, c) | _ => undefined end.

Definition values_at (v : list double) (i : nat) : M double :=
  match nth_error v i with Some d => ret d | None => undefined end.

(** The objective: the members of [TravGridObjective] and, of the
    [SpaceInformation] it was built with, the state-space metric. *)
Record TravGridObjective : Type := mkTravGridObjective {
  si_distance : State -> State -> double;
  mpTravGrid : option TraversabilityGrid;
  mpTravData : option TravData;
  mConfig : Config
}.

(** The two constructors and [setTravGrid]. *)
Definition TravGridObjective_new
    (distance : State -> State -> double) (config : Config)
    : TravGridObjective :=
  mkTravGridObjective distance None None config.

Definition TravGridObjective_new_grid
    (distance : State -> State -> double)
    (trav_grid : option TraversabilityGrid) (trav_data : option TravData)
    (config : Config) : TravGridObjective :=
  mkTravGridObjective distance trav_grid trav_data config.

Definition setTravGrid (o : TravGridObjective)
    (trav_grid : option TraversabilityGrid) (trav_data : option TravData)
    : TravGridObjective :=
  mkTravGridObjective (si_distance o) trav_grid trav_data (mConfig o).

(** ** [stateCost] *)

(** The [switch] on the environment type: position and footprint class. *)
Definition extract (env : EnvType) (s : State) : M (double * double * Z) :=
  match env with
  | ENV_XY =>
      state_rv <- as_RealVector s ;;
      x <- values_at state_rv 0 ;;
      y <- values_at state_rv 1 ;;
      ret (x, y, 0)
  | ENV_XYTHETA =>
      state_se2 <- as_SE2 s ;;
      ret (fst state_se2, snd state_se2, 0)
  | ENV_SHERPA =>
      state_sherpa <- as_Sherpa s ;;
      let '(x, y, c) := state_sherpa in
      ret (x, y, to_int32 c)
  | ENV_OTHER =>
      throw (runtime_error "TravGridObjective received an unknown environment")
  end.

(** The bounds test of [stateCost]. *)
Definition out_of_bounds (grid : TraversabilityGrid) (x y : double) : bool :=
  Double.lt x (Double.of_int 0) ||
  Double.ge x (Double.of_int (getCellSizeX grid)) ||
  Double.lt y (Double.of_int 0) ||
  Double.ge y (Double.of_int (getCellSizeY grid)).

(** Conversion of a [double] to an integer type. *)
Definition index_of (d : double) : M Z :=
  match Double.to_index d with Some i => ret i | None => undefined end.

(** Drivability of the cell under [(x, y)]: the cell's class is read with
    the coordinates truncated to indices, converted to [double]
    ([class_value]) and back to the [uint8_t] argument of
    [getTraversabilityClass]. *)
Definition cell_driveability (grid : TraversabilityGrid) (data : TravData)
    (x y : double) : M double :=
  iy <- index_of y ;;
  ix <- index_of x ;;
  let class_value := Double.of_int (to_uint8 (data iy ix)) in
  klass <- index_of class_value ;;
  ret (getDrivability (getTraversabilityClass grid (to_uint8 klass))).

(** The divisor [(footprint_class+1) / ((double)mNumFootprintClasses+1)]:
    an [int] sum converted to [double], over a [double] sum.  (Overflow of
    the [int] sum, undefined in C++, needs the class [2 ^ 31 - 1]; it is
    written as wrap-around.) *)
Definition footprint_ratio (cfg : Config) (footprint_class : Z) : double :=
  Double.div
    (Double.of_int (to_int32 (footprint_class + 1)))
    (Double.add (Double.of_int (mNumFootprintClasses cfg)) (Double.of_int 1)).

(** Time to traverse one cell at full speed scaled by the drivability. *)
Definition traversal_time (grid : TraversabilityGrid) (cfg : Config)
    (driveability : double) : double :=
  Double.div (Double.div (getScaleX grid) (mSpeed (mMobility cfg))) driveability.

(** The cost [stateCost] computes from the drivability of the cell. *)
Definition cell_cost (grid : TraversabilityGrid) (cfg : Config)
    (driveability : double) (footprint_class : Z) : double :=
  if Double.eq driveability (Double.of_int 0) ||
     Double.eq (mSpeed (mMobility cfg)) (Double.of_int 0)
  then Double.max
  else
    let cost := traversal_time grid cfg driveability in
    match mEnvType cfg with
    | ENV_SHERPA => Double.div cost (footprint_ratio cfg footprint_class)
    | _ => cost
    end.

Definition stateCost (o : TravGridObjective) (s : State) : M double :=
  match mpTravGrid o with
  | None =>
      throw (runtime_error "TravGridObjective: No traversability grid available")
  | Some grid =>
      p <- extract (mEnvType (mConfig o)) s ;;
      let '(x, y, footprint_class) := p in
      if out_of_bounds grid x y then
        log (LOG_WARN
               "Invalid state (%4.2f, %4.2f) has been passed and will be ignored"
               [x; y]) ;;;
        throw (runtime_error "Invalid state received")
      else
        data <- deref (mpTravData o) ;;
        driveability <- cell_driveability grid data x y ;;
        ret (cell_cost grid (mConfig o) driveability footprint_class)
  end.

(** ** [motionCost] *)

(** Modelled from the spec: [StateCostIntegralObjective::motionCost] of the
    planning framework, which is not part of this repository.  The base
    segment cost is the mean of the two state costs times the state-space
    distance of the end points (the trapezoid rule
    [0.5 * dist * (c1 + c2)]), with [stateCost] as the per-state cost and
    no interpolation of intermediate states (the default of
    [enable_motion_cost_interpolation]). *)
Definition trapezoid (c1 c2 dist : double) : double :=
  Double.mul (Double.mul Double.half dist) (Double.add c1 c2).

Definition StateCostIntegralObjective_motionCost
    (o : TravGridObjective) (s1 s2 : State) : M double :=
  c1 <- stateCost o s1 ;;
  c2 <- stateCost o s2 ;;
  ret (trapezoid c1 c2 (si_distance o s1 s2)).

(** [(a - b).norm()] of two [base::Vector2d]. *)
Definition norm2d (x1 y1 x2 y2 : double) : double :=
  let dx := Double.sub x1 x2 in
  let dy := Double.sub y1 y2 in
  Double.sqrt (Double.add (Double.mul dx dx) (Double.mul dy dy)).

(** [abs] of an [int].  ([abs(INT_MIN)], undefined in C++, is written as
    wrap-around: the result stays [INT_MIN].) *)
Definition abs_int (z : Z) : Z := to_int32 (Z.abs z).

(** [abs(int(c1 - c2)) / (double)mNumFootprintClasses *
    mTimeToAdaptFootprint]. *)
Definition fp_time_sec (cfg : Config) (c1 c2 : Z) : double :=
  Double.mul
    (Double.div (Double.of_int (abs_int (to_int32 (c1 - c2))))
                (Double.of_int (mNumFootprintClasses cfg)))
    (mTimeToAdaptFootprint cfg).

(** [dist_m / mSpeed], with [dist_m] the planar distance times the
    scale. *)
Definition mov_time_sec (grid : TraversabilityGrid) (cfg : Config)
    (x1 y1 x2 y2 : double) : double :=
  let dist_m := Double.mul (norm2d x1 y1 x2 y2) (getScaleX grid) in
  Double.div dist_m (mSpeed (mMobility cfg)).

(** The cost after the footprint time and the penalty were added, before
    the test against the movement time. *)
Definition with_footprint_change (cfg : Config) (cost_v fp_time : double)
    : double :=
  let cost_v := Double.add cost_v fp_time in
  if Double.gt fp_time (Double.of_int 0)
  then Double.add cost_v (mAdaptFootprintPenalty cfg)
  else cost_v.

Definition motionCost (o : TravGridObjective) (s1 s2 : State) : M double :=
  cost <- StateCostIntegralObjective_motionCost o s1 s2 ;;
  let cost_v := cost in
  match mEnvType (mConfig o) with
  | ENV_SHERPA =>
      st_s1 <- as_Sherpa s1 ;;
      st_s2 <- as_Sherpa s2 ;;
      let '(x1, y1, c1) := st_s1 in
      let '(x2, y2, c2) := st_s2 in
      let fp_time := fp_time_sec (mConfig o) c1 c2 in
      let cost_v := with_footprint_change (mConfig o) cost_v fp_time in
      grid <- deref (mpTravGrid o) ;;
      let mov_time := mov_time_sec grid (mConfig o) x1 y1 x2 y2 in
      if Double.gt fp_time mov_time then ret Double.infinity else ret cost_v
  | _ => ret cost_v
  end.

(** ** Specification vocabulary *)

(** A state is inside the grid: [0 <= x < getCellSizeX] and
    [0 <= y < getCellSizeY], as comparisons of doubles (so neither
    coordinate is a NaN). *)
Definition in_bounds (grid : TraversabilityGrid) (x y : double) : bool :=
  Double.le (Double.of_int 0) x &&
  Double.lt x (Double.of_int (getCellSizeX grid)) &&
  Double.le (Double.of_int 0) y &&
  Double.lt y (Double.of_int (getCellSizeY grid)).

(** Two doubles denote the same number: they are identical, or they compare
    equal (the two zeros). *)
Definition same_number (a b : double) : Prop :=
  a = b \/ Double.eq a b = true.

(** A configuration with another speed, everything else unchanged. *)
Definition with_speed (cfg : Config) (v : double) : Config :=
  mkConfig (mEnvType cfg) (mkMobility v) (mNumFootprintClasses cfg)
           (mTimeToAdaptFootprint cfg) (mAdaptFootprintPenalty cfg).

(** *** Real-number semantics of binary64 rounding *)

(** [2 ^ e] as a real, for any integer exponent. *)
Definition bpow (e : Z) : R := powerRZ 2 e.

(** Value of a float; infinities and NaN are given 0. *)
Definition B2R (f : spec_float) : R :=
  match f with
  | S754_finite s m e => ((if s then -1 else 1) * IZR (Zpos m) * bpow e)%R
  | _ => 0%R
  end.

(** Position of a real in the unit interval above the integer [m], as the
    round bit [r] and the sticky bit [s] encode it. *)
Definition Loc (v : R) (m : Z) (r s : bool) : Prop :=
  match r, s with
  | false, false => v = IZR m
  | false, true => (IZR m < v < IZR m + / 2)%R
  | true, false => v = (IZR m + / 2)%R
  | true, true => (IZR m + / 2 < v < IZR m + 1)%R
  end.

Definition LocR (v : R) (mrs : shr_record) : Prop :=
  0 <= shr_m mrs /\ Loc v (shr_m mrs) (shr_r mrs) (shr_s mrs).

(** [k] is the integer nearest to [v], ties going to the even one. *)
Definition rne (v : R) (k : Z) : Prop :=
  (IZR k - / 2 <= v <= IZR k + / 2)%R /\
  (v = (IZR k + / 2)%R \/ v = (IZR k - / 2)%R -> Z.even k = true).

(** The float with sign [s], integer significand [k] (at most [2 ^ 53])
    and exponent [E]: a carry into the 54th bit moves to the next binade,
    an exponent above 971 overflows to infinity. *)
Definition pack (s : bool) (k E : Z) : spec_float :=
  match k with
  | Z0 => S754_zero s
  | Zpos m =>
      if k =? 2 ^ 53 then
        if E + 1 <=? 971 then S754_finite s (2 ^ 52)%positive (E + 1)
        else S754_infinity s
      else
        if E <=? 971 then S754_finite s m E else S754_infinity s
  | Zneg _ => S754_nan
  end.

(** [f] is the binary64 rounding (to nearest, ties to even) of the positive
    real [r], with sign [s]. *)
Definition Rounded (s : bool) (r : R) (f : spec_float) : Prop :=
  exists n k,
    (bpow (n - 1) <= r < bpow n)%R /\
    rne (r * bpow (- fexp Double.prec Double.emax n)) k /\
    f = pack s k (fexp Double.prec Double.emax n).

(** The propositions behind [Double.nonneg] and [Double.pos_finite]. *)
Definition NonnegValid (f : spec_float) : Prop :=
  match f with
  | S754_zero s => s = false
  | S754_infinity s => s = false
  | S754_nan => False
  | S754_finite s m e => s = false /\ bounded Double.prec Double.emax m e = true
  end.

Definition PosFinite (f : spec_float) : Prop :=
  match f with
  | S754_finite s m e => s = false /\ bounded Double.prec Double.emax m e = true
  | _ => False
  end.

(** Rank of a non-negative float in the order of the binary64 encoding. *)
Definition ord_inf : Z := (971 + 1074) * 2 ^ 52 + 2 ^ 53.

Definition ord (f : spec_float) : Z :=
  match f with
  | S754_zero _ => 0
  | S754_finite _ m e => (e + 1074) * 2 ^ 52 + Zpos m
  | S754_infinity _ => ord_inf
  | S754_nan => 0
  end.

(** Powers of two in the normal range, as doubles. *)
Definition pow2 (a : Z) : spec_float := S754_finite false (2 ^ 52)%positive (a - 52).

(** [2 ^ a <= x <= 2 ^ b]. *)
Definition within (a b : Z) (x : double) : bool :=
  Double.le (pow2 a) x && Double.le x (pow2 b).

(** The footprint-class condition under which the divisor is meaningful. *)
Definition class_ok (cfg : Config) (fc : Z) : Prop :=
  mEnvType cfg = ENV_SHERPA ->
  0 <= fc <= mNumFootprintClasses cfg /\ mNumFootprintClasses cfg < 2 ^ 31 - 1.

(** *** Example objects *)

(** A state-space metric for the examples: the planar distance. *)
Definition planar_distance (s1 s2 : State) : double :=
  match s1, s2 with
  | SE2State x1 y1 _, SE2State x2 y2 _
  | SherpaState x1 y1 _ _, SherpaState x2 y2 _ _ => norm2d x1 y1 x2 y2
  | _, _ => Double.zero
  end.

(** A grid whose every cell has the same drivability. *)
Definition uniform_grid (w h : Z) (scale driveability : double)
    : TraversabilityGrid :=
  mkTraversabilityGrid w h scale (fun _ => mkTraversabilityClass driveability).

(** Every cell is of class 0. *)
Definition uniform_data : TravData := fun _ _ => 0.

(** An objective over a 10 x 10 uniform grid. *)
Definition example_objective (env : EnvType) (scale driveability speed : double)
    (classes : Z) (adapt_time penalty : double) : TravGridObjective :=
  TravGridObjective_new_grid planar_distance
    (Some (uniform_grid 10 10 scale driveability)) (Some uniform_data)
    (mkConfig env (mkMobility speed) classes adapt_time penalty).

(** [n / 10] as a double. *)
Definition tenth (n : Z) : double := Double.div (Double.of_int n) (Double.of_int 10).

(** The smallest positive double, [2 ^ -1074]. *)
Definition denorm_min : double := S754_finite false 1 (-1074).

(** Planar variant: scale 1.0, drivability 0.5, speed 2.0. *)
Definition ex_planar : TravGridObjective :=
  example_objective ENV_XYTHETA Double.one Double.half (Double.of_int 2)
    3 Double.one Double.one.

(** Footprint-aware, one class step taking 10 s, speed 1.0. *)
Definition ex_infeasible : TravGridObjective :=
  example_objective ENV_SHERPA Double.one Double.half Double.one
    1 (Double.of_int 10) Double.one.

(** Footprint-aware with 3 classes, speed 2.0. *)
Definition ex_footprint : TravGridObjective :=
  example_objective ENV_SHERPA Double.one Double.half (Double.of_int 2)
    3 (Double.of_int 10) Double.one.

(** Footprint-aware with speed 0. *)
Definition ex_zero_speed : TravGridObjective :=
  example_objective ENV_SHERPA Double.one Double.half Double.zero
    1 (Double.of_int 10) Double.one.

(** Footprint-aware over impassable cells (drivability 0). *)
Definition ex_blocked : TravGridObjective :=
  example_objective ENV_SHERPA Double.one Double.zero Double.one
    3 (Double.of_int 10) Double.one.

(** The smallest positive speed. *)
Definition ex_overflow : TravGridObjective :=
  example_objective ENV_XY Double.one Double.one denorm_min
    3 Double.one Double.one.

(** The smallest positive scale. *)
Definition ex_underflow : TravGridObjective :=
  example_objective ENV_XY denorm_min Double.one (Double.of_int 2)
    3 Double.one Double.one.

(** Footprint-aware with 2 classes, speed 0.1, drivability 0.3. *)
Definition ex_three_classes : TravGridObjective :=
  example_objective ENV_SHERPA Double.one (tenth 3) (tenth 1)
    2 (Double.of_int 10) Double.one.

(** An environment type the [switch] statements do not name, over the
    example grid. *)
Definition ex_unknown_env : TravGridObjective :=
  example_objective ENV_OTHER Double.one Double.half (Double.of_int 2)
    3 Double.one Double.one.

(** The example grid bound together with a null data pointer. *)
Definition ex_null_data : TravGridObjective :=
  setTravGrid ex_planar (Some (uniform_grid 10 10 Double.one Double.half)) None.

(** Planar variant over impassable cells (drivability 0). *)
Definition ex_blocked_planar : TravGridObjective :=
  example_objective ENV_XYTHETA Double.one Double.zero (Double.of_int 2)
    3 Double.one Double.one.

(** Footprint-aware with 3 classes, adaptation time 1 s, speed 2.0. *)
Definition ex_quick_adapt : TravGridObjective :=
  example_objective ENV_SHERPA Double.one Double.half (Double.of_int 2)
    3 Double.one Double.one.

(** [3.5], [4.25] and [9.75]. *)
Definition three_and_half : double :=
  Double.div (Double.of_int 7) (Double.of_int 2).

Definition four_and_quarter : double :=
  Double.div (Double.of_int 17) (Double.of_int 4).

Definition nine_and_three_quarters : double :=
  Double.div (Double.of_int 39) (Double.of_int 4).

(** * Binary64 arithmetic

    [SpecFloat] gives the operations as algorithms on significands and
    exponents.  This part relates them to the real numbers: an operation on
    positive finite doubles returns the rounding of the exact result
    ([Rounded]), roundings are unique and monotone, and canonical doubles
    are ordered as their values are. *)

(** ** Powers of two *)

Lemma bpow_gt_0 e : (0 < bpow e)%R.
Proof. apply powerRZ_lt; lra. Qed.

Lemma bpow_add a b : bpow (a + b) = (bpow a * bpow b)%R.
Proof. apply powerRZ_add; lra. Qed.

Lemma bpow_0 : bpow 0 = 1%R.
Proof. reflexivity. Qed.

Lemma bpow_1 : bpow 1 = 2%R.
Proof. unfold bpow; simpl; lra. Qed.

Lemma bpow_m1 : bpow (-1) = (/2)%R.
Proof. unfold bpow; simpl; lra. Qed.

Lemma bpow_IZR e : 0 <= e -> bpow e = IZR (2 ^ e).
Proof.
  intros He. unfold bpow.
  rewrite <- (Z2Nat.id e He) at 1.
  rewrite <- pow_powerRZ, pow_IZR, Z2Nat.id by assumption. reflexivity.
Qed.

Lemma bpow_ge_1 e : 0 <= e -> (1 <= bpow e)%R.
Proof.
  intros He. rewrite bpow_IZR by assumption.
  apply IZR_le. assert (0 < 2 ^ e) by (apply Z.pow_pos_nonneg; lia). lia.
Qed.

Lemma bpow_le a b : a <= b -> (bpow a <= bpow b)%R.
Proof.
  intros H. replace b with (a + (b - a)) by lia. rewrite bpow_add.
  pose proof (bpow_gt_0 a). pose proof (bpow_ge_1 (b - a) ltac:(lia)). nra.
Qed.

Lemma bpow_lt a b : a < b -> (bpow a < bpow b)%R.
Proof.
  intros H. replace b with (a + 1 + (b - a - 1)) by lia.
  rewrite !bpow_add, bpow_1.
  pose proof (bpow_gt_0 a). pose proof (bpow_ge_1 (b - a - 1) ltac:(lia)). nra.
Qed.

Lemma bpow_lt_inv a b : (bpow a < bpow b)%R -> a < b.
Proof.
  intros H. destruct (Z_lt_le_dec a b) as [|Hle]; [assumption|].
  apply bpow_le in Hle. lra.
Qed.

Lemma bpow_opp_r e : (bpow e * bpow (- e) = 1)%R.
Proof. rewrite <- bpow_add, Z.add_opp_diag_r. reflexivity. Qed.

(** A positive real lies in exactly one binade. *)

Lemma binade_unique r n n' :
  (bpow (n - 1) <= r < bpow n)%R -> (bpow (n' - 1) <= r < bpow n')%R -> n = n'.
Proof.
  intros [H1 H2] [H3 H4].
  assert (n - 1 < n') by (apply bpow_lt_inv; lra).
  assert (n' - 1 < n) by (apply bpow_lt_inv; lra). lia.
Qed.

(** ** Number of bits of a significand *)

Lemma digits2_size p : digits2_pos p = Pos.size p.
Proof. induction p; simpl; congruence. Qed.

Lemma digits2_bounds p :
  2 ^ (Zpos (digits2_pos p) - 1) <= Zpos p < 2 ^ Zpos (digits2_pos p).
Proof.
  rewrite digits2_size. split.
  - pose proof (Pos.size_le p) as H.
    assert (Hz : Zpos (2 ^ Pos.size p) <= Zpos p~0) by exact H.
    rewrite Pos2Z.inj_pow in Hz.
    replace (Zpos (Pos.size p)) with (Zpos (Pos.size p) - 1 + 1) in Hz by lia.
    rewrite Z.pow_add_r in Hz by lia. change (2 ^ 1) with 2 in Hz. lia.
  - pose proof (Pos.size_gt p) as H.
    assert (Hz : Zpos p < Zpos (2 ^ Pos.size p)) by exact H.
    rewrite Pos2Z.inj_pow in Hz. exact Hz.
Qed.

Lemma fexp_eq n : fexp Double.prec Double.emax n = Z.max (n - 53) (-1074).
Proof. reflexivity. Qed.

(** ** Shifting right with a round and a sticky bit *)

Lemma IZR_xI p : IZR (Zpos p~1) = (2 * IZR (Zpos p) + 1)%R.
Proof. rewrite Pos2Z.inj_xI, plus_IZR, mult_IZR. reflexivity. Qed.

Lemma IZR_xO p : IZR (Zpos p~0) = (2 * IZR (Zpos p))%R.
Proof. rewrite Pos2Z.inj_xO, mult_IZR. reflexivity. Qed.

(** One shift halves the value the record stands for. *)
Lemma shr_1_loc v mrs : LocR v mrs -> LocR (v * / 2) (shr_1 mrs).
Proof.
  destruct mrs as [m r s]. unfold LocR, Loc; simpl. intros [Hm H].
  destruct m as [|p|p]; [| |lia].
  - destruct r, s; simpl in *; split; try lia; lra.
  - destruct p as [p|p|]; simpl shr_m; simpl shr_r; simpl shr_s.
    + pose proof (IZR_xI p).
      destruct r, s; simpl in *; split; try lia; lra.
    + pose proof (IZR_xO p).
      destruct r, s; simpl in *; split; try lia; lra.
    + destruct r, s; simpl in *; split; try lia; lra.
Qed.

Lemma iter_shr_loc p : forall v mrs,
  LocR v mrs -> LocR (v * bpow (- Zpos p)) (iter_pos shr_1 p mrs).
Proof.
  induction p as [p IH|p IH|]; intros v mrs H; simpl iter_pos.
  - replace (v * bpow (- Zpos p~1))%R
      with (v * / 2 * bpow (- Zpos p) * bpow (- Zpos p))%R.
    + apply IH, IH, shr_1_loc, H.
    + replace (- Zpos p~1) with (-1 + (- Zpos p + - Zpos p)) by lia.
      rewrite !bpow_add, bpow_m1. ring.
  - replace (v * bpow (- Zpos p~0))%R
      with (v * bpow (- Zpos p) * bpow (- Zpos p))%R.
    + apply IH, IH, H.
    + replace (- Zpos p~0) with (- Zpos p + - Zpos p) by lia.
      rewrite !bpow_add. ring.
  - change (Z.opp (Zpos xH)) with (Zneg xH). rewrite bpow_m1. apply shr_1_loc, H.
Qed.

Lemma shr_loc v mrs e t :
  0 <= t -> LocR v mrs ->
  LocR (v * bpow (- t)) (fst (shr mrs e t)) /\ snd (shr mrs e t) = e + t.
Proof.
  intros Ht H. destruct t as [|p|p]; unfold shr; cbn [fst snd]; [| |lia].
  - change (- 0) with 0. rewrite bpow_0, Rmult_1_r. split; [assumption|lia].
  - split; [apply iter_shr_loc, H|reflexivity].
Qed.

Lemma shr_nop mrs e t : t <= 0 -> shr mrs e t = (mrs, e).
Proof. destruct t; simpl; intros; try reflexivity; lia. Qed.

(** ** Rounding to nearest even, and the rounding step of every operation *)

Lemma Loc_bounds v m r s : Loc v m r s -> (IZR m <= v < IZR m + 1)%R.
Proof. unfold Loc; destruct r, s; intros; lra. Qed.

Lemma rne_of_loc v mrs :
  LocR v mrs -> rne v (round_nearest_even (shr_m mrs) (loc_of_shr_record mrs)).
Proof.
  destruct mrs as [m r s]. unfold LocR, Loc, rne; simpl. intros [Hm H].
  destruct r, s; simpl.
  - rewrite plus_IZR. split; [lra|intros [|]; lra].
  - destruct (Z.even m) eqn:Hev.
    + split; [lra|intros _; assumption].
    + rewrite plus_IZR. split; [lra|intros _].
      change (m + 1) with (Z.succ m). rewrite Z.even_succ, <- Z.negb_even, Hev.
      reflexivity.
  - split; [lra|intros [|]; lra].
  - split; [lra|intros [|]; lra].
Qed.

Lemma shr_m_of_loc m l : shr_m (shr_record_of_loc m l) = m.
Proof. destruct l as [|[]]; reflexivity. Qed.

Lemma IZR_pow2_53 : IZR (2 ^ 53) = bpow 53.
Proof. rewrite bpow_IZR by lia. reflexivity. Qed.

Lemma digits2_le_53 p : Zpos p < 2 ^ 53 -> Zpos (digits2_pos p) <= 53.
Proof.
  intros H. pose proof (digits2_bounds p) as [Hl _].
  assert (2 ^ (Zpos (digits2_pos p) - 1) < 2 ^ 53) by lia.
  apply Z.pow_lt_mono_r_iff in H0; lia.
Qed.

(** The exponent the rounding settles on. *)

Lemma fexp_digits m e r n :
  (bpow (n - 1) <= r < bpow n)%R -> e <= fexp Double.prec Double.emax n -> 0 <= m ->
  (IZR m <= r * bpow (- e) < IZR m + 1)%R ->
  fexp Double.prec Double.emax (Zdigits2 m + e) = fexp Double.prec Double.emax n.
Proof.
  intros Hr He Hm Hv. rewrite !fexp_eq in *.
  assert (Hre : (r = r * bpow (- e) * bpow e)%R).
  { rewrite Rmult_assoc, (Rmult_comm (bpow (- e))), bpow_opp_r. ring. }
  pose proof (bpow_gt_0 e) as Hpe.
  destruct m as [|p|p]; [| |lia].
  - simpl Zdigits2.
    assert (n - 1 < e).
    { apply bpow_lt_inv. simpl in Hv. nra. }
    lia.
  - simpl Zdigits2. pose proof (digits2_bounds p) as [Hl Hu].
    set (d := Zpos (digits2_pos p)) in *.
    assert (0 < d) by (unfold d; lia).
    apply IZR_le in Hl. assert (Hu' : Zpos p + 1 <= 2 ^ d) by lia.
    apply IZR_le in Hu'. rewrite plus_IZR in Hu'.
    rewrite <- !bpow_IZR in * by lia.
    assert (n = d + e).
    { apply (binade_unique r); [assumption|].
      replace (d + e - 1) with (d - 1 + e) by lia. rewrite !bpow_add.
      split; nra. }
    subst n. reflexivity.
Qed.

(** The rounding step shared by all operations: given a truncated
    significand [m] at exponent [e] with the location [l] of the exact
    value [r] above it, precise enough for the binade of [r], the result
    is the rounding of [r]. *)
Theorem binary_round_aux_correct s m e l r n :
  (bpow (n - 1) <= r < bpow n)%R -> e <= fexp Double.prec Double.emax n ->
  LocR (r * bpow (- e)) (shr_record_of_loc m l) ->
  Rounded s r (binary_round_aux Double.prec Double.emax s m e l).
Proof.
  intros Hr He Hloc.
  assert (Hm : 0 <= m) by (destruct Hloc as [H _]; rewrite shr_m_of_loc in H; exact H).
  assert (Hv : (IZR m <= r * bpow (- e) < IZR m + 1)%R).
  { destruct Hloc as [_ H]. apply Loc_bounds in H.
    rewrite shr_m_of_loc in H. exact H. }
  set (E := fexp Double.prec Double.emax n) in *.
  assert (HE : fexp Double.prec Double.emax (Zdigits2 m + e) = E)
    by (eapply fexp_digits; eassumption).
  assert (HEmin : -1074 <= E) by (unfold E; rewrite fexp_eq; lia).
  assert (HEn : n - 53 <= E) by (unfold E; rewrite fexp_eq; lia).
  unfold binary_round_aux, shr_fexp. rewrite HE.
  destruct (shr_loc _ _ e (E - e) ltac:(lia) Hloc) as [Hloc' He'].
  destruct (shr (shr_record_of_loc m l) e (E - e)) as [mrs' e'].
  cbn [fst snd] in Hloc', He'. replace (e + (E - e)) with E in He' by lia.
  subst e'.
  replace (r * bpow (- e) * bpow (- (E - e)))%R with (r * bpow (- E))%R in Hloc'.
  2:{ replace (- E) with (- e + - (E - e)) by lia. rewrite bpow_add. ring. }
  pose proof (rne_of_loc _ _ Hloc') as Hk.
  set (k := round_nearest_even (shr_m mrs') (loc_of_shr_record mrs')) in *.
  assert (Hk0 : 0 <= k).
  { destruct Hloc' as [H0 _]. unfold k, round_nearest_even.
    destruct (loc_of_shr_record mrs') as [|[]]; try destruct (Z.even _); lia. }
  assert (Hk53 : k <= 2 ^ 53).
  { assert (r * bpow (- E) < bpow 53)%R.
    { pose proof (bpow_gt_0 (- E)).
      assert (bpow n * bpow (- E) <= bpow 53)%R
        by (rewrite <- bpow_add; apply bpow_le; lia).
      nra. }
    rewrite <- IZR_pow2_53 in H. destruct Hk as [Hk _].
    assert (IZR k < IZR (2 ^ 53 + 1))%R by (rewrite plus_IZR; lra).
    apply lt_IZR in H0. lia. }
  exists n, k. split; [assumption|]. split; [assumption|]. fold E.
  unfold pack. destruct k as [|p|p]; [| |lia].
  - simpl Zdigits2. rewrite shr_nop by (rewrite fexp_eq; lia). reflexivity.
  - destruct (Z.eqb_spec (Zpos p) (2 ^ 53)) as [Heq|Hne].
    + injection Heq as ->. simpl Zdigits2.
      replace (fexp Double.prec Double.emax (54 + E) - E) with 1 by (rewrite fexp_eq; lia).
      reflexivity.
    + simpl Zdigits2.
      pose proof (digits2_le_53 p ltac:(lia)).
      rewrite shr_nop by (rewrite fexp_eq; lia). reflexivity.
Qed.

(** ** Rounded values *)

Lemma bounded_iff m e :
  bounded Double.prec Double.emax m e = true <->
  (Z.max (Zpos (digits2_pos m) + e - 53) (-1074) = e /\ e <= 971).
Proof.
  unfold bounded, canonical_mantissa. rewrite fexp_eq.
  rewrite andb_true_iff, Z.eqb_eq, Z.leb_le. reflexivity.
Qed.

Lemma rne_mono v1 v2 k1 k2 : (v1 <= v2)%R -> rne v1 k1 -> rne v2 k2 -> k1 <= k2.
Proof.
  intros Hv [H1 T1] [H2 T2].
  destruct (Z_le_gt_dec k1 k2) as [|H]; [assumption|exfalso].
  assert (k2 + 1 <= k1) as H' by lia. apply IZR_le in H'. rewrite plus_IZR in H'.
  assert (Ev1 : Z.even k1 = true) by (apply T1; right; lra).
  assert (Ev2 : Z.even k2 = true) by (apply T2; left; lra).
  assert (Hk : k1 = k2 + 1).
  { assert (Hle : (IZR k1 <= IZR (k2 + 1))%R) by (rewrite plus_IZR; lra).
    apply le_IZR in Hle. lia. }
  subst k1. change (k2 + 1) with (Z.succ k2) in Ev1.
  rewrite Z.even_succ, <- Z.negb_even, Ev2 in Ev1. discriminate.
Qed.

Lemma rne_unique v k1 k2 : rne v k1 -> rne v k2 -> k1 = k2.
Proof.
  intros H1 H2.
  pose proof (rne_mono v v k1 k2 ltac:(lra) H1 H2).
  pose proof (rne_mono v v k2 k1 ltac:(lra) H2 H1). lia.
Qed.

Lemma rne_ge v k z : (IZR z <= v)%R -> rne v k -> z <= k.
Proof.
  intros Hz [H _].
  assert (Hlt : (IZR z < IZR (k + 1))%R) by (rewrite plus_IZR; lra).
  apply lt_IZR in Hlt. lia.
Qed.

Lemma rne_le v k z : (v <= IZR z)%R -> rne v k -> k <= z.
Proof.
  intros Hz [H _].
  assert (Hlt : (IZR (k - 1) < IZR z)%R) by (rewrite minus_IZR; lra).
  apply lt_IZR in Hlt. lia.
Qed.

Lemma rne_int z : rne (IZR z) z.
Proof. split; [lra|intros [|]; lra]. Qed.

(** A real has one rounding. *)
Theorem Rounded_unique s r f1 f2 : Rounded s r f1 -> Rounded s r f2 -> f1 = f2.
Proof.
  intros (n1 & k1 & Hr1 & Hk1 & ->) (n2 & k2 & Hr2 & Hk2 & ->).
  assert (n1 = n2) by (eapply binade_unique; eassumption). subst n2.
  assert (k1 = k2) by (eapply rne_unique; eassumption). subst k2. reflexivity.
Qed.

(** Bounds on the rounded mantissa. *)

Lemma Rounded_mantissa r n k :
  (bpow (n - 1) <= r < bpow n)%R -> rne (r * bpow (- fexp Double.prec Double.emax n)) k ->
  0 <= k <= 2 ^ 53 /\ (-1074 < fexp Double.prec Double.emax n -> 2 ^ 52 <= k).
Proof.
  intros Hr Hk. rewrite fexp_eq in *. set (E := Z.max (n - 53) (-1074)) in *.
  pose proof (bpow_gt_0 (- E)) as HpE. pose proof (bpow_gt_0 (n - 1)).
  split; [split|].
  - apply (rne_ge _ _ 0) in Hk; [assumption|]. simpl. nra.
  - apply (rne_le _ _ (2 ^ 53)) in Hk; [assumption|].
    rewrite IZR_pow2_53.
    assert (bpow n * bpow (- E) <= bpow 53)%R
      by (rewrite <- bpow_add; apply bpow_le; lia).
    nra.
  - intros HE. apply (rne_ge _ _ (2 ^ 52)) in Hk; [assumption|].
    rewrite <- bpow_IZR by lia.
    assert (bpow 52 <= bpow (n - 1) * bpow (- E))%R
      by (rewrite <- bpow_add; apply bpow_le; lia).
    nra.
Qed.

Lemma digits2_pos_53 p : 2 ^ 52 <= Zpos p < 2 ^ 53 -> Zpos (digits2_pos p) = 53.
Proof.
  intros [Hl Hu]. pose proof (digits2_bounds p) as [Hl' Hu'].
  assert (2 ^ 52 < 2 ^ Zpos (digits2_pos p)) by lia.
  assert (2 ^ (Zpos (digits2_pos p) - 1) < 2 ^ 53) by lia.
  apply Z.pow_lt_mono_r_iff in H; [|lia|lia].
  apply Z.pow_lt_mono_r_iff in H0; lia.
Qed.

(** A rounded value is +0, a canonical finite float or +inf. *)

Theorem Rounded_valid r f : Rounded false r f -> NonnegValid f.
Proof.
  intros (n & k & Hr & Hk & ->).
  destruct (Rounded_mantissa r n k Hr Hk) as [[Hk0 Hk53] Hk52].
  rewrite fexp_eq in *. set (E := Z.max (n - 53) (-1074)) in *.
  unfold pack. destruct k as [|p|p]; [reflexivity| |lia].
  destruct (Z.eqb_spec (Zpos p) (2 ^ 53)).
  - destruct (Z.leb_spec (E + 1) 971); [|reflexivity].
    split; [reflexivity|]. apply bounded_iff. simpl digits2_pos. lia.
  - destruct (Z.leb_spec E 971); [|reflexivity].
    split; [reflexivity|]. apply bounded_iff. split; [|assumption].
    destruct (Z.eq_dec E (-1074)) as [HE|HE].
    + pose proof (digits2_le_53 p ltac:(lia)). lia.
    + rewrite (digits2_pos_53 p) by lia. lia.
Qed.

(** Canonical floats are fixed points of rounding. *)

Theorem Rounded_exact m e :
  bounded Double.prec Double.emax m e = true ->
  Rounded false (IZR (Zpos m) * bpow e) (S754_finite false m e).
Proof.
  intros Hb. apply bounded_iff in Hb. destruct Hb as [Hc He].
  pose proof (digits2_bounds m) as [Hl Hu].
  set (d := Zpos (digits2_pos m)) in *. assert (0 < d) by (unfold d; lia).
  exists (d + e), (Zpos m). rewrite fexp_eq.
  replace (Z.max (d + e - 53) (-1074)) with e by lia.
  split; [|split].
  - apply IZR_le in Hl. assert (Hu' : Zpos m + 1 <= 2 ^ d) by lia.
    apply IZR_le in Hu'. rewrite plus_IZR in Hu'.
    rewrite <- !bpow_IZR in * by lia.
    replace (d + e - 1) with (d - 1 + e) by lia. rewrite !bpow_add.
    pose proof (bpow_gt_0 e). split; nra.
  - rewrite Rmult_assoc, bpow_opp_r, Rmult_1_r. apply rne_int.
  - unfold pack.
    assert (d <= 53) by lia.
    assert (Zpos m < 2 ^ 53).
    { eapply Z.lt_le_trans; [exact Hu|]. apply Z.pow_le_mono_r; lia. }
    destruct (Z.eqb_spec (Zpos m) (2 ^ 53)); [lia|].
    destruct (Z.leb_spec e 971); [reflexivity|lia].
Qed.

(** ** The order of non-negative doubles *)

Lemma bounded_range m e :
  bounded Double.prec Double.emax m e = true ->
  -1074 <= e <= 971 /\ 0 < Zpos m < 2 ^ 53 /\ (-1074 < e -> 2 ^ 52 <= Zpos m).
Proof.
  intros Hb. apply bounded_iff in Hb. destruct Hb as [Hc He].
  pose proof (digits2_bounds m) as [Hl Hu].
  set (d := Zpos (digits2_pos m)) in *. assert (0 < d) by (unfold d; lia).
  split; [lia|]. split; [split; [lia|]|].
  - eapply Z.lt_le_trans; [exact Hu|]. apply Z.pow_le_mono_r; lia.
  - intros H1. assert (d = 53) by lia.
    replace (d - 1) with 52 in Hl by lia. exact Hl.
Qed.

Lemma pow2_52 : 2 ^ 52 = 4503599627370496. Proof. reflexivity. Qed.

Lemma pow2_53 : 2 ^ 53 = 9007199254740992. Proof. reflexivity. Qed.

Ltac float_cases f1 f2 V1 V2 :=
  destruct f1 as [?s|?s| |?s ?m ?e]; simpl in V1; try contradiction;
  destruct f2 as [?s|?s| |?s ?m ?e]; simpl in V2; try contradiction;
  repeat match goal with H : _ /\ _ |- _ => destruct H end; subst;
  repeat match goal with
         | H : bounded _ _ _ _ = true |- _ => apply bounded_range in H
         end;
  unfold SFleb, SFltb; cbn [ord SFcompare]; unfold ord_inf;
  rewrite ?pow2_52, ?pow2_53 in *.

Lemma ord_le_SFleb f1 f2 :
  NonnegValid f1 -> NonnegValid f2 -> ord f1 <= ord f2 -> SFleb f1 f2 = true.
Proof.
  intros V1 V2. float_cases f1 f2 V1 V2; intros H; try reflexivity; try lia.
  destruct (Z.compare_spec e e0); try reflexivity; try lia.
  subst. rewrite Pos.compare_cont_spec. simpl.
  destruct (Pos.compare_spec m m0); try reflexivity. lia.
Qed.

Lemma SFleb_ord_le f1 f2 :
  NonnegValid f1 -> NonnegValid f2 -> SFleb f1 f2 = true -> ord f1 <= ord f2.
Proof.
  intros V1 V2. float_cases f1 f2 V1 V2; intros H; try discriminate; try lia.
  revert H. destruct (Z.compare_spec e e0); try discriminate; try lia.
  subst. rewrite Pos.compare_cont_spec. simpl.
  destruct (Pos.compare_spec m m0); try discriminate; lia.
Qed.

Lemma ord_pack k E :
  0 <= k <= 2 ^ 53 -> -1074 <= E -> (-1074 < E -> 2 ^ 52 <= k) ->
  ord (pack false k E) = Z.min ((E + 1074) * 2 ^ 52 + k) ord_inf.
Proof.
  intros Hk HE Hk52. unfold pack, ord_inf. rewrite ?pow2_52, ?pow2_53 in *.
  destruct k as [|p|p]; [| |lia].
  - simpl. lia.
  - destruct (Z.eqb_spec (Zpos p) 9007199254740992) as [Heq|Hne].
    + destruct (Z.leb_spec (E + 1) 971); simpl; unfold ord_inf; lia.
    + destruct (Z.leb_spec E 971); simpl; unfold ord_inf; lia.
Qed.

Lemma fexp_mono a b : a <= b -> fexp Double.prec Double.emax a <= fexp Double.prec Double.emax b.
Proof. rewrite !fexp_eq. lia. Qed.

Lemma binade_mono r1 r2 n1 n2 :
  (bpow (n1 - 1) <= r1 < bpow n1)%R -> (bpow (n2 - 1) <= r2 < bpow n2)%R ->
  (r1 <= r2)%R -> n1 <= n2.
Proof.
  intros [H1 _] [_ H2] H. assert (n1 - 1 < n2) by (apply bpow_lt_inv; lra). lia.
Qed.

(** Rounding to nearest is monotone. *)

Theorem Rounded_mono r1 r2 f1 f2 :
  (r1 <= r2)%R -> Rounded false r1 f1 -> Rounded false r2 f2 ->
  SFleb f1 f2 = true.
Proof.
  intros Hr R1 R2.
  pose proof (Rounded_valid _ _ R1) as V1.
  pose proof (Rounded_valid _ _ R2) as V2.
  apply ord_le_SFleb; try assumption.
  destruct R1 as (n1 & k1 & Hr1 & Hk1 & ->), R2 as (n2 & k2 & Hr2 & Hk2 & ->).
  destruct (Rounded_mantissa _ _ _ Hr1 Hk1) as [B1 L1].
  destruct (Rounded_mantissa _ _ _ Hr2 Hk2) as [B2 L2].
  pose proof (binade_mono _ _ _ _ Hr1 Hr2 Hr) as Hn.
  pose proof (fexp_mono _ _ Hn) as HE.
  assert (-1074 <= fexp Double.prec Double.emax n1) by (rewrite fexp_eq; lia).
  rewrite !ord_pack by (try assumption; lia).
  destruct (Z.eq_dec (fexp Double.prec Double.emax n1) (fexp Double.prec Double.emax n2)) as [Heq|Hne].
  - rewrite Heq in *.
    assert (k1 <= k2) by (eapply rne_mono; [|eassumption|eassumption];
      pose proof (bpow_gt_0 (- fexp Double.prec Double.emax n2)); nra).
    lia.
  - specialize (L2 ltac:(lia)). rewrite ?pow2_52, ?pow2_53 in *. lia.
Qed.

(** Canonical doubles compare as their values do. *)
Lemma canonical_lt m1 e1 m2 e2 :
  bounded Double.prec Double.emax m1 e1 = true -> bounded Double.prec Double.emax m2 e2 = true ->
  e1 < e2 -> (IZR (Zpos m1) * bpow e1 < IZR (Zpos m2) * bpow e2)%R.
Proof.
  intros H1 H2 He.
  apply bounded_range in H1, H2.
  destruct H1 as (He1 & [_ Hu] & _), H2 as (He2 & _ & Hl).
  specialize (Hl ltac:(lia)).
  apply IZR_lt in Hu. apply IZR_le in Hl.
  rewrite <- bpow_IZR in * by lia.
  pose proof (bpow_gt_0 e1). pose proof (bpow_le (e1 + 1) e2 ltac:(lia)) as Hb.
  rewrite bpow_add, bpow_1 in Hb.
  replace 53 with (52 + 1) in Hu by lia. rewrite bpow_add, bpow_1 in Hu.
  pose proof (bpow_gt_0 52). nra.
Qed.

Lemma SFleb_B2R f1 f2 :
  PosFinite f1 -> PosFinite f2 -> SFleb f1 f2 = true -> (B2R f1 <= B2R f2)%R.
Proof.
  destruct f1 as [| | |s1 m1 e1]; try contradiction.
  destruct f2 as [| | |s2 m2 e2]; try contradiction.
  intros [-> H1] [-> H2]. unfold SFleb; simpl.
  destruct (Z.compare_spec e1 e2) as [Heq|Hlt|Hgt]; try discriminate.
  - subst. rewrite Pos.compare_cont_spec. simpl.
    destruct (Pos.compare_spec m1 m2) as [Hm|Hm|Hm]; try discriminate; intros _.
    + subst. lra.
    + assert (Hz : Zpos m1 < Zpos m2) by exact Hm. apply IZR_lt in Hz.
      pose proof (bpow_gt_0 e2). nra.
  - intros _. pose proof (canonical_lt _ _ _ _ H1 H2 Hlt). lra.
Qed.

Lemma B2R_pos f : PosFinite f -> (0 < B2R f)%R.
Proof.
  destruct f as [| | |s m e]; try contradiction. intros [-> _]. simpl.
  pose proof (bpow_gt_0 e). assert (0 < IZR (Zpos m))%R by (apply IZR_lt; lia).
  nra.
Qed.

(** ** Division, multiplication, conversion and addition are correctly
    rounded *)

Lemma IZR_digits_bounds p :
  (bpow (Zpos (digits2_pos p) - 1) <= IZR (Zpos p) < bpow (Zpos (digits2_pos p)))%R.
Proof.
  pose proof (digits2_bounds p) as [Hl Hu].
  rewrite !bpow_IZR by lia. split; [apply IZR_le|apply IZR_lt]; assumption.
Qed.

(** The location [SFdiv] computes from the remainder [k] of a division by
    [nb]. *)
Lemma new_location_loc nb k q v :
  0 < nb -> 0 <= k < nb -> 0 <= q ->
  (v * IZR nb = IZR q * IZR nb + IZR k)%R ->
  LocR v (shr_record_of_loc q (new_location nb k)).
Proof.
  intros Hnb Hk Hq Hv.
  assert (Hnb' : (0 < IZR nb)%R) by (apply IZR_lt; assumption).
  assert (Hk0 : (0 <= IZR k)%R) by (apply IZR_le; lia).
  assert (Hk1 : (IZR k < IZR nb)%R) by (apply IZR_lt; lia).
  assert (Hlt : forall c : R, (IZR k < c * IZR nb -> v < IZR q + c)%R).
  { intros c Hc. apply Rmult_lt_reg_r with (IZR nb); [assumption|]. lra. }
  assert (Hgt : forall c : R, (c * IZR nb < IZR k -> IZR q + c < v)%R).
  { intros c Hc. apply Rmult_lt_reg_r with (IZR nb); [assumption|]. lra. }
  assert (Heq : forall c : R, (IZR k = c * IZR nb -> v = IZR q + c)%R).
  { intros c Hc. apply Rmult_eq_reg_r with (IZR nb); [|lra]. lra. }
  split; [rewrite shr_m_of_loc; assumption|]. rewrite shr_m_of_loc.
  assert (Hex : k = 0 -> v = IZR q).
  { intros ->. replace (IZR q) with (IZR q + 0)%R by ring. apply Heq. lra. }
  assert (H0 : k <> 0 -> (IZR q < v < IZR q + 1)%R).
  { intros Hk'. assert (Hk2 : (1 <= IZR k)%R) by (apply IZR_le; lia). split.
    - replace (IZR q) with (IZR q + 0)%R by ring. apply Hgt. lra.
    - apply Hlt; lra. }
  unfold new_location.
  destruct (Z.even nb) eqn:Hev; [unfold new_location_even|unfold new_location_odd];
    (destruct (Z.eqb_spec k 0) as [Hk'|Hk']; [simpl; auto|]);
    specialize (H0 Hk').
  - destruct (Z.compare_spec (2 * k) nb) as [H|H|H]; simpl.
    + apply (f_equal IZR) in H. rewrite mult_IZR in H. apply Heq. lra.
    + apply IZR_lt in H. rewrite mult_IZR in H.
      split; [tauto|apply Hlt; lra].
    + apply IZR_lt in H. rewrite mult_IZR in H.
      split; [apply Hgt; lra|tauto].
  - assert (Hodd : 2 * k <> nb).
    { intros <-. rewrite Z.even_mul in Hev. discriminate. }
    destruct (Z.compare_spec (2 * k + 1) nb) as [H|H|H]; simpl.
    + assert (H' : 2 * k < nb) by lia.
      apply IZR_lt in H'. rewrite mult_IZR in H'.
      split; [tauto|apply Hlt; lra].
    + assert (H' : 2 * k < nb) by lia.
      apply IZR_lt in H'. rewrite mult_IZR in H'.
      split; [tauto|apply Hlt; lra].
    + assert (H' : nb < 2 * k) by lia.
      apply IZR_lt in H'. rewrite mult_IZR in H'.
      split; [apply Hgt; lra|tauto].
Qed.

(** Every positive quotient of two float values lies in one of two binades. *)

Lemma F2R_bounds m e :
  let d := Zpos (digits2_pos m) in
  (bpow (d + e - 1) <= IZR (Zpos m) * bpow e < bpow (d + e))%R.
Proof.
  intros d. pose proof (IZR_digits_bounds m) as [Hl Hu]. fold d in Hl, Hu.
  replace (d + e - 1) with (d - 1 + e) by lia. rewrite !bpow_add.
  pose proof (bpow_gt_0 e). split; nra.
Qed.

Lemma quotient_binade mx ex my ey :
  let r := (IZR (Zpos mx) * bpow ex / (IZR (Zpos my) * bpow ey))%R in
  let n0 := Zpos (digits2_pos mx) + ex - (Zpos (digits2_pos my) + ey) in
  exists n, n0 <= n /\ (bpow (n - 1) <= r < bpow n)%R.
Proof.
  intros r n0.
  pose proof (F2R_bounds mx ex) as [HXl HXu].
  pose proof (F2R_bounds my ey) as [HYl HYu]. cbv zeta in *.
  set (a := Zpos (digits2_pos mx) + ex) in *.
  set (b := Zpos (digits2_pos my) + ey) in *.
  set (X := (IZR (Zpos mx) * bpow ex)%R) in *.
  set (Y := (IZR (Zpos my) * bpow ey)%R) in *.
  assert (HY : (0 < Y)%R) by (pose proof (bpow_gt_0 (b - 1)); lra).
  assert (Hr : (r * Y = X)%R) by (unfold r; field; lra).
  assert (E1 : (bpow (n0 - 1) * bpow b = bpow (a - 1))%R).
  { rewrite <- bpow_add. f_equal. unfold n0. lia. }
  assert (E2 : (bpow (n0 + 1) * bpow (b - 1) = bpow a)%R).
  { rewrite <- bpow_add. f_equal. unfold n0. lia. }
  assert (Hlow : (bpow (n0 - 1) < r)%R).
  { apply Rmult_lt_reg_r with Y; [assumption|]. rewrite Hr.
    pose proof (bpow_gt_0 (n0 - 1)). nra. }
  assert (Hup : (r < bpow (n0 + 1))%R).
  { apply Rmult_lt_reg_r with Y; [assumption|]. rewrite Hr.
    pose proof (bpow_gt_0 (n0 + 1)). nra. }
  destruct (Rlt_dec r (bpow n0)) as [Hlt|Hge].
  - exists n0. split; [lia|]. split; lra.
  - exists (n0 + 1). split; [lia|]. replace (n0 + 1 - 1) with n0 by lia.
    split; lra.
Qed.

(** Division of positive finite doubles is correctly rounded. *)
Theorem SFdiv_correct x y :
  PosFinite x -> PosFinite y ->
  Rounded false (B2R x / B2R y) (SFdiv Double.prec Double.emax x y).
Proof.
  destruct x as [| | |sx mx ex]; try contradiction.
  destruct y as [| | |sy my ey]; try contradiction.
  intros [-> Hx] [-> Hy]. cbn [B2R SFdiv xorb].
  rewrite !Rmult_1_l.
  destruct (quotient_binade mx ex my ey) as (n & Hn0 & Hn).
  unfold SFdiv_core_binary.
  set (d1 := Zdigits2 (Zpos mx)). set (d2 := Zdigits2 (Zpos my)).
  change (Zpos (digits2_pos mx)) with d1 in Hn0.
  change (Zpos (digits2_pos my)) with d2 in Hn0.
  set (e' := Z.min (fexp Double.prec Double.emax (d1 + ex - (d2 + ey))) (ex - ey)).
  set (s := ex - ey - e').
  assert (Hs : 0 <= s) by (unfold s, e'; lia).
  set (m' := match s with Z.pos _ => Z.shiftl (Zpos mx) s | 0 => Zpos mx | Z.neg _ => 0 end).
  assert (Hm' : m' = Zpos mx * 2 ^ s).
  { unfold m'. destruct s as [|p|p]; [simpl; lia| |lia].
    apply Z.shiftl_mul_pow2. lia. }
  pose proof (Z_div_mod m' (Zpos my) ltac:(lia)) as Hdiv.
  destruct (Z.div_eucl m' (Zpos my)) as [q rem]. destruct Hdiv as [Hqr Hrem].
  assert (Hq : 0 <= q).
  { assert (0 <= m') by (rewrite Hm'; apply Z.mul_nonneg_nonneg; [lia|apply Z.pow_nonneg; lia]).
    nia. }
  apply (binary_round_aux_correct _ _ _ _ _ n Hn).
  - pose proof (fexp_mono _ _ Hn0). unfold e'. lia.
  - apply new_location_loc; try assumption; try lia.
    apply (f_equal IZR) in Hqr. rewrite plus_IZR, mult_IZR in Hqr.
    rewrite Hm', mult_IZR, <- bpow_IZR in Hqr by assumption.
    assert (He : ex = s + ey + e') by (unfold s; lia).
    rewrite He, !bpow_add.
    pose proof (bpow_gt_0 ey). pose proof (bpow_opp_r e').
    pose proof (bpow_gt_0 e'). pose proof (bpow_gt_0 (- e')).
    assert (0 < IZR (Zpos my))%R by (apply IZR_lt; lia).
    transitivity (IZR (Z.pos mx) * bpow s * (bpow e' * bpow (- e')))%R.
    + field. split; lra.
    + rewrite H0. lra.
Qed.

Lemma LocR_exact m : 0 <= m -> LocR (IZR m) (shr_record_of_loc m loc_Exact).
Proof. intros H. split; simpl; [assumption|reflexivity]. Qed.

Lemma bpow_cancel v e : (v * bpow e * bpow (- e) = v)%R.
Proof. rewrite Rmult_assoc, bpow_opp_r. ring. Qed.

(** So is multiplication. *)
Theorem SFmul_correct x y :
  PosFinite x -> PosFinite y ->
  Rounded false (B2R x * B2R y) (SFmul Double.prec Double.emax x y).
Proof.
  destruct x as [| | |sx mx ex]; try contradiction.
  destruct y as [| | |sy my ey]; try contradiction.
  intros [-> Hx] [-> Hy]. cbn [B2R SFmul xorb]. rewrite !Rmult_1_l.
  replace (IZR (Zpos mx) * bpow ex * (IZR (Zpos my) * bpow ey))%R
    with (IZR (Zpos (mx * my)) * bpow (ex + ey))%R
    by (rewrite Pos2Z.inj_mul, mult_IZR, bpow_add; ring).
  pose proof (F2R_bounds (mx * my) (ex + ey)) as Hn. cbv zeta in Hn.
  apply (binary_round_aux_correct _ _ _ _ _ _ Hn).
  - pose proof (digits2_bounds mx) as [Hl1 Hu1].
    pose proof (digits2_bounds my) as [Hl2 Hu2].
    pose proof (digits2_bounds (mx * my)) as [Hl Hu].
    apply bounded_iff in Hx, Hy. rewrite fexp_eq.
    set (dx := Zpos (digits2_pos mx)) in *. set (dy := Zpos (digits2_pos my)) in *.
    set (D := Zpos (digits2_pos (mx * my))) in *.
    assert (0 < dx) by (unfold dx; lia). assert (0 < dy) by (unfold dy; lia).
    assert (dx + dy - 2 < D).
    { apply (Z.pow_lt_mono_r_iff 2); [lia|unfold D; lia|].
      eapply Z.le_lt_trans; [|exact Hu].
      replace (dx + dy - 2) with ((dx - 1) + (dy - 1)) by lia.
      rewrite Z.pow_add_r, Pos2Z.inj_mul by lia.
      apply Z.mul_le_mono_nonneg; try assumption; apply Z.pow_nonneg; lia. }
    lia.
  - rewrite bpow_cancel. apply LocR_exact. lia.
Qed.

Lemma iter_xO m d : Zpos (Pos.iter xO m d) = Zpos m * 2 ^ Zpos d.
Proof.
  induction d as [|d IH] using Pos.peano_ind.
  - simpl. lia.
  - rewrite Pos.iter_succ, Pos2Z.inj_xO, IH, Pos2Z.inj_succ, Z.pow_succ_r by lia.
    ring.
Qed.

(** Normalising an exact significand and exponent rounds its value. *)
Theorem binary_round_correct s m e :
  Rounded s (IZR (Zpos m) * bpow e) (binary_round Double.prec Double.emax s m e).
Proof.
  unfold binary_round, shl_align.
  pose proof (F2R_bounds m e) as Hn. cbv zeta in Hn.
  set (n := Zpos (digits2_pos m) + e) in *.
  destruct (fexp Double.prec Double.emax n - e) as [|d|d] eqn:Hd.
  - apply (binary_round_aux_correct _ _ _ _ _ _ Hn); [lia|].
    rewrite bpow_cancel. apply LocR_exact. lia.
  - apply (binary_round_aux_correct _ _ _ _ _ _ Hn); [lia|].
    rewrite bpow_cancel. apply LocR_exact. lia.
  - apply (binary_round_aux_correct _ _ _ _ _ _ Hn); [lia|].
    rewrite iter_xO.
    replace (IZR (Zpos m) * bpow e)%R
      with (IZR (Zpos m * 2 ^ Zpos d) * bpow (fexp Double.prec Double.emax n))%R.
    + rewrite bpow_cancel. apply LocR_exact. lia.
    + assert (Hb : bpow e = (bpow (Zpos d) * bpow (fexp Double.prec Double.emax n))%R)
        by (rewrite <- bpow_add; f_equal; lia).
      rewrite mult_IZR, <- bpow_IZR, Hb by lia. ring.
Qed.

Lemma of_int_correct z :
  0 < z -> Rounded false (IZR z) (binary_normalize Double.prec Double.emax z 0 false).
Proof.
  intros Hz. destruct z as [|p|p]; try lia. simpl binary_normalize.
  pose proof (binary_round_correct false p 0) as H.
  rewrite bpow_0, Rmult_1_r in H. exact H.
Qed.

Lemma shl_align_fst m e e' :
  e' <= e -> Zpos (fst (shl_align m e e')) = Zpos m * 2 ^ (e - e').
Proof.
  intros H. unfold shl_align. destruct (e' - e) as [|d|d] eqn:Hd; simpl fst.
  - replace (e - e') with 0 by lia. simpl. lia.
  - lia.
  - rewrite iter_xO. f_equal. f_equal. lia.
Qed.

(** Addition of positive finite doubles is correctly rounded. *)
Theorem SFadd_correct x y :
  PosFinite x -> PosFinite y ->
  Rounded false (B2R x + B2R y) (SFadd Double.prec Double.emax x y).
Proof.
  destruct x as [| | |sx mx ex]; try contradiction.
  destruct y as [| | |sy my ey]; try contradiction.
  intros [-> Hx] [-> Hy]. cbn [B2R SFadd cond_Zopp]. rewrite !Rmult_1_l.
  set (ez := Z.min ex ey).
  pose proof (shl_align_fst mx ex ez ltac:(unfold ez; lia)) as H1.
  pose proof (shl_align_fst my ey ez ltac:(unfold ez; lia)) as H2.
  set (a := fst (shl_align mx ex ez)) in *.
  set (b := fst (shl_align my ey ez)) in *.
  change (Zpos a + Zpos b) with (Zpos (a + b)). simpl binary_normalize.
  replace (IZR (Zpos mx) * bpow ex + IZR (Zpos my) * bpow ey)%R
    with (IZR (Zpos (a + b)) * bpow ez)%R.
  - apply binary_round_correct.
  - rewrite Pos2Z.inj_add, plus_IZR, H1, H2, !mult_IZR.
    rewrite <- !bpow_IZR by (unfold ez; lia).
    assert (Hbx : bpow ex = (bpow (ex - ez) * bpow ez)%R)
      by (rewrite <- bpow_add; f_equal; lia).
    assert (Hby : bpow ey = (bpow (ey - ez) * bpow ez)%R)
      by (rewrite <- bpow_add; f_equal; lia).
    rewrite Hbx, Hby. ring.
Qed.

(** A rounded value that is representable is the representation. *)

Lemma Rounded_representable r f m e :
  Rounded false r f -> bounded Double.prec Double.emax m e = true ->
  r = (IZR (Zpos m) * bpow e)%R -> f = S754_finite false m e.
Proof.
  intros Hf Hb ->. eapply Rounded_unique; [eassumption|].
  apply Rounded_exact, Hb.
Qed.

Lemma int_representable z :
  0 < z < 2 ^ 53 ->
  exists m e, bounded Double.prec Double.emax m e = true /\ IZR z = (IZR (Zpos m) * bpow e)%R.
Proof.
  intros [Hz0 Hz]. destruct z as [|p|p]; try lia.
  pose proof (digits2_bounds p) as [Hl Hu].
  pose proof (digits2_le_53 p Hz) as Hd.
  set (d := Zpos (digits2_pos p)) in *. assert (0 < d) by (unfold d; lia).
  assert (Hsh : 2 ^ 52 <= Zpos p * 2 ^ (53 - d) < 2 ^ 53).
  { assert (E52 : 2 ^ 52 = 2 ^ (d - 1) * 2 ^ (53 - d))
      by (rewrite <- Z.pow_add_r by lia; f_equal; lia).
    assert (E53 : 2 ^ 53 = 2 ^ d * 2 ^ (53 - d))
      by (rewrite <- Z.pow_add_r by lia; f_equal; lia).
    rewrite E52, E53.
    assert (0 < 2 ^ (53 - d)) by (apply Z.pow_pos_nonneg; lia).
    split; [apply Z.mul_le_mono_nonneg_r; lia|apply Z.mul_lt_mono_pos_r; lia]. }
  remember (Zpos p * 2 ^ (53 - d)) as M eqn:HM.
  destruct M as [|m|m]; try lia.
  exists m, (d - 53). split.
  - apply bounded_iff. rewrite (digits2_pos_53 m) by exact Hsh. lia.
  - rewrite HM, mult_IZR, <- bpow_IZR by lia.
    replace (d - 53) with (- (53 - d)) by lia. rewrite bpow_cancel. reflexivity.
Qed.

(** ** Comparisons and signs *)

Lemma SFcompare_antisym x y :
  SFcompare y x = option_map CompOpp (SFcompare x y).
Proof.
  destruct x as [sx|sx| |sx mx ex], y as [sy|sy| |sy my ey];
    try destruct sx; try destruct sy; simpl; try reflexivity.
  - rewrite (Z.compare_antisym ey ex). destruct (ey ?= ex); simpl; try reflexivity.
    rewrite Pos.compare_cont_antisym. simpl. rewrite CompOpp_involutive. reflexivity.
  - rewrite (Z.compare_antisym ey ex). destruct (ey ?= ex); simpl; try reflexivity.
    rewrite Pos.compare_cont_antisym. reflexivity.
Qed.

Lemma lt_not_ge x y : Double.lt x y = true -> Double.ge x y = false.
Proof.
  unfold Double.lt, Double.ge, SFltb, SFleb. rewrite (SFcompare_antisym x y).
  destruct (SFcompare x y) as [[]|]; simpl; congruence.
Qed.

Lemma le_not_gt x y : Double.le x y = true -> Double.gt x y = false.
Proof.
  unfold Double.le, Double.gt, SFltb, SFleb. rewrite (SFcompare_antisym x y).
  destruct (SFcompare x y) as [[]|]; simpl; congruence.
Qed.

Lemma binary_round_aux_sign s m e l :
  match binary_round_aux Double.prec Double.emax s m e l with
  | S754_nan => True
  | S754_zero s' | S754_infinity s' | S754_finite s' _ _ => s' = s
  end.
Proof.
  unfold binary_round_aux.
  destruct (shr_fexp Double.prec Double.emax m e l) as [mrs' e'].
  destruct (shr_fexp Double.prec Double.emax _ e' loc_Exact) as [mrs'' e''].
  destruct (shr_m mrs''); [reflexivity| |exact I].
  destruct (e'' <=? Double.emax - Double.prec); reflexivity.
Qed.

Lemma binary_round_aux_sign_clear m e l :
  Double.sign_clear (binary_round_aux Double.prec Double.emax false m e l) = true.
Proof.
  pose proof (binary_round_aux_sign false m e l) as H.
  destruct (binary_round_aux Double.prec Double.emax false m e l); simpl; subst; reflexivity.
Qed.

Lemma binary_round_sign_clear m e :
  Double.sign_clear (binary_round Double.prec Double.emax false m e) = true.
Proof.
  unfold binary_round. destruct (shl_align m e _) as [mz ez].
  apply binary_round_aux_sign_clear.
Qed.

Lemma sign_clear_mul x y :
  Double.sign_clear x = true -> Double.sign_clear y = true ->
  Double.sign_clear (Double.mul x y) = true.
Proof.
  destruct x as [sx|sx| |sx mx ex], y as [sy|sy| |sy my ey]; simpl;
    try reflexivity; intros Hx Hy; apply negb_true_iff in Hx, Hy; subst;
    try reflexivity.
  apply binary_round_aux_sign_clear.
Qed.

Lemma sign_clear_mul_self x : Double.sign_clear (Double.mul x x) = true.
Proof.
  destruct x as [s|s| |s m e]; simpl; rewrite ?xorb_nilpotent; try reflexivity.
  apply binary_round_aux_sign_clear.
Qed.

Lemma sign_clear_div x y :
  Double.sign_clear x = true -> Double.sign_clear y = true ->
  Double.sign_clear (Double.div x y) = true.
Proof.
  destruct x as [sx|sx| |sx mx ex], y as [sy|sy| |sy my ey]; simpl;
    try reflexivity; intros Hx Hy; apply negb_true_iff in Hx, Hy; subst;
    try reflexivity.
  cbn [xorb]. destruct (SFdiv_core_binary _ _ _ _ _ _) as [[mz ez] lz].
  apply binary_round_aux_sign_clear.
Qed.

Lemma sign_clear_add x y :
  Double.sign_clear x = true -> Double.sign_clear y = true ->
  Double.sign_clear (Double.add x y) = true.
Proof.
  destruct x as [sx|sx| |sx mx ex], y as [sy|sy| |sy my ey]; simpl;
    try reflexivity; intros Hx Hy; apply negb_true_iff in Hx, Hy; subst;
    try reflexivity.
  apply binary_round_sign_clear.
Qed.

Lemma sign_clear_sqrt x :
  Double.sign_clear x = true -> Double.sign_clear (Double.sqrt x) = true.
Proof.
  destruct x as [s|s| |s m e]; simpl; try reflexivity; intros H;
    apply negb_true_iff in H; subst; try reflexivity.
  destruct (SFsqrt_core_binary _ _ _ _) as [[mz ez] lz].
  apply binary_round_aux_sign_clear.
Qed.

Create HintDb sign_clear.

#[global] Hint Resolve sign_clear_mul sign_clear_mul_self sign_clear_div
  sign_clear_add sign_clear_sqrt : sign_clear.

Lemma sign_clear_norm2d x1 y1 x2 y2 :
  Double.sign_clear (norm2d x1 y1 x2 y2) = true.
Proof. unfold norm2d. auto with sign_clear. Qed.

#[global] Hint Resolve sign_clear_norm2d : sign_clear.

(** Nothing whose sign bit is clear is below a zero. *)
Lemma sign_clear_not_lt_zero m s :
  Double.sign_clear m = true -> Double.lt m (S754_zero s) = false.
Proof.
  destruct m as [sm|sm| |sm mm em]; simpl; try reflexivity; intros H;
    apply negb_true_iff in H; subst; reflexivity.
Qed.

(** ** Consequences for division, integers and the footprint divisor *)

Lemma pos_finite_spec f : Double.pos_finite f = true <-> PosFinite f.
Proof.
  destruct f as [s|s| |s m e]; simpl; try (split; [discriminate|tauto]).
  destruct s; split.
  - discriminate.
  - intros [H _]; discriminate.
  - auto.
  - tauto.
Qed.

Lemma nonneg_spec f : Double.nonneg f = true <-> NonnegValid f.
Proof.
  destruct f as [s|s| |s m e]; simpl; try (split; [discriminate|tauto]);
    destruct s; split; try discriminate; try tauto; auto.
  intros [H _]; discriminate.
Qed.

Lemma PosFinite_Nonneg f : PosFinite f -> NonnegValid f.
Proof. destruct f; simpl; tauto. Qed.

Lemma NonnegValid_cases f :
  NonnegValid f -> f = S754_zero false \/ f = S754_infinity false \/ PosFinite f.
Proof.
  destruct f as [s|s| |s m e]; simpl; intros H; subst; try contradiction; auto.
Qed.

(** Integers below [2 ^ 53] convert exactly. *)
Lemma of_int_exact z :
  0 < z < 2 ^ 53 ->
  PosFinite (Double.of_int z) /\ B2R (Double.of_int z) = IZR z.
Proof.
  intros Hz. destruct (int_representable z Hz) as (m & e & Hb & Hv).
  pose proof (of_int_correct z ltac:(lia)) as Hr.
  unfold Double.of_int.
  rewrite (Rounded_representable _ _ m e Hr Hb Hv). simpl.
  split; [auto|]. rewrite Hv. ring.
Qed.

Lemma B2R_finite m e : B2R (S754_finite false m e) = (IZR (Zpos m) * bpow e)%R.
Proof. simpl. ring. Qed.

(** A rounded value in terms of the float it is. *)
Lemma Rounded_PosFinite f :
  PosFinite f -> Rounded false (B2R f) f.
Proof.
  destruct f as [| | |s m e]; try contradiction. intros [-> Hb].
  rewrite B2R_finite. apply Rounded_exact, Hb.
Qed.

Lemma div_nonneg a d :
  NonnegValid a -> PosFinite d -> NonnegValid (Double.div a d).
Proof.
  intros Ha Hd. destruct (NonnegValid_cases a Ha) as [->|[->|Hp]].
  - destruct d as [| | |s m e]; try contradiction. destruct Hd as [-> _]. reflexivity.
  - destruct d as [| | |s m e]; try contradiction. destruct Hd as [-> _]. reflexivity.
  - eapply Rounded_valid, SFdiv_correct; assumption.
Qed.

Lemma le_refl_nonneg a : NonnegValid a -> Double.le a a = true.
Proof.
  intros Ha. apply ord_le_SFleb; try assumption. lia.
Qed.

Lemma quotient_pos x y : (0 < x -> 0 < y -> 0 < x / y)%R.
Proof. intros. apply Rdiv_lt_0_compat; assumption. Qed.

(** Division is antitone in the divisor and monotone in the dividend. *)
Lemma div_anti_den a d1 d2 :
  NonnegValid a -> PosFinite d1 -> PosFinite d2 -> Double.le d1 d2 = true ->
  Double.le (Double.div a d2) (Double.div a d1) = true.
Proof.
  intros Ha H1 H2 Hle. destruct (NonnegValid_cases a Ha) as [->|[->|Hp]].
  - destruct d1 as [| | |s1 m1 e1], d2 as [| | |s2 m2 e2]; try contradiction.
    destruct H1 as [-> _], H2 as [-> _]. reflexivity.
  - destruct d1 as [| | |s1 m1 e1], d2 as [| | |s2 m2 e2]; try contradiction.
    destruct H1 as [-> _], H2 as [-> _]. reflexivity.
  - pose proof (SFleb_B2R _ _ H1 H2 Hle) as Hv.
    pose proof (B2R_pos _ H1). pose proof (B2R_pos _ H2). pose proof (B2R_pos _ Hp).
    eapply Rounded_mono; [|apply SFdiv_correct; eassumption
                          |apply SFdiv_correct; eassumption].
    unfold Rdiv. apply Rmult_le_compat_l; [lra|].
    apply Rinv_le_contravar; assumption.
Qed.

Lemma le_zero_nonneg x : NonnegValid x -> Double.le (S754_zero false) x = true.
Proof.
  destruct x as [s|s| |s m e]; simpl; intros H; try contradiction; subst;
    try reflexivity.
  destruct H as [-> _]. reflexivity.
Qed.

Lemma le_nonneg_inf x : NonnegValid x -> Double.le x (S754_infinity false) = true.
Proof.
  destruct x as [s|s| |s m e]; simpl; intros H; try contradiction; subst;
    reflexivity.
Qed.

Lemma div_zero_l d : PosFinite d -> Double.div (S754_zero false) d = S754_zero false.
Proof.
  destruct d as [| | |s m e]; try contradiction. intros [-> _]. reflexivity.
Qed.

Lemma div_inf_l d :
  PosFinite d -> Double.div (S754_infinity false) d = S754_infinity false.
Proof.
  destruct d as [| | |s m e]; try contradiction. intros [-> _]. reflexivity.
Qed.

Lemma div_mono_num a1 a2 d :
  NonnegValid a1 -> NonnegValid a2 -> PosFinite d -> Double.le a1 a2 = true ->
  Double.le (Double.div a1 d) (Double.div a2 d) = true.
Proof.
  intros H1 H2 Hd Hle.
  pose proof (div_nonneg a1 d H1 Hd) as N1.
  pose proof (div_nonneg a2 d H2 Hd) as N2.
  destruct (NonnegValid_cases a1 H1) as [->|[->|P1]].
  - rewrite div_zero_l by assumption. apply le_zero_nonneg, N2.
  - destruct (NonnegValid_cases a2 H2) as [->|[->|P2]].
    + discriminate Hle.
    + rewrite div_inf_l by assumption. reflexivity.
    + destruct a2 as [| | |s2 m2 e2]; try contradiction. discriminate Hle.
  - destruct (NonnegValid_cases a2 H2) as [->|[->|P2]].
    + destruct a1 as [| | |s1 m1 e1]; try contradiction.
      destruct P1 as [-> _]. discriminate Hle.
    + rewrite (div_inf_l d) by assumption. apply le_nonneg_inf, N1.
    + pose proof (SFleb_B2R _ _ P1 P2 Hle) as Hv.
      pose proof (B2R_pos _ Hd).
      eapply Rounded_mono; [|apply SFdiv_correct; eassumption
                            |apply SFdiv_correct; eassumption].
      unfold Rdiv. apply Rmult_le_compat_r; [|assumption].
      left. apply Rinv_0_lt_compat. assumption.
Qed.

Lemma div_one a : NonnegValid a -> Double.div a Double.one = a.
Proof.
  intros Ha. destruct (NonnegValid_cases a Ha) as [->|[->|Hp]]; try reflexivity.
  assert (P1 : PosFinite Double.one) by (split; reflexivity).
  destruct a as [| | |s m e]; try contradiction. destruct Hp as [-> Hb].
  eapply Rounded_representable; [apply SFdiv_correct; [split; auto|exact P1]|exact Hb|].
  rewrite B2R_finite. unfold Double.one. rewrite B2R_finite.
  replace (IZR 4503599627370496 * bpow (-52))%R with 1%R; [field|].
  change 4503599627370496 with (2 ^ 52). rewrite <- bpow_IZR by lia.
  symmetry. apply bpow_opp_r.
Qed.

(** Dividing by something in (0, 1] does not decrease a cost. *)
Lemma div_ge_self t r :
  NonnegValid t -> PosFinite r -> Double.le r Double.one = true ->
  Double.le t (Double.div t r) = true.
Proof.
  intros Ht Hr Hle.
  assert (P1 : PosFinite Double.one) by (split; reflexivity).
  pose proof (div_anti_den t r Double.one Ht Hr P1 Hle) as H.
  rewrite div_one in H by assumption. exact H.
Qed.

Lemma pow2_PosFinite a : -1022 <= a <= 1023 -> PosFinite (pow2 a).
Proof.
  intros Ha. split; [reflexivity|]. apply bounded_iff. simpl digits2_pos. lia.
Qed.

Lemma B2R_pow2 a : B2R (pow2 a) = bpow a.
Proof.
  unfold pow2. rewrite B2R_finite.
  change (Zpos (2 ^ 52)) with (2 ^ 52). rewrite <- bpow_IZR, <- bpow_add by lia.
  f_equal. lia.
Qed.

Lemma PosFinite_between lo hi f :
  PosFinite lo -> PosFinite hi -> NonnegValid f ->
  Double.le lo f = true -> Double.le f hi = true -> PosFinite f.
Proof.
  intros Hlo Hhi Hf H1 H2.
  destruct (NonnegValid_cases f Hf) as [->|[->|Hp]]; [| |assumption].
  - destruct lo as [| | |s m e]; try contradiction. destruct Hlo as [-> _].
    discriminate H1.
  - destruct hi as [| | |s m e]; try contradiction. destruct Hhi as [-> _].
    discriminate H2.
Qed.

(** Rounding keeps a value between two powers of two. *)
Lemma Rounded_range r f a b :
  Rounded false r f -> -1022 <= a -> b <= 1023 ->
  (bpow a <= r <= bpow b)%R ->
  PosFinite f /\ (bpow a <= B2R f <= bpow b)%R.
Proof.
  intros Hf Ha Hb [Hl Hu].
  assert (Hab : a <= b).
  { destruct (Z_le_gt_dec a b); [assumption|].
    assert (bpow b < bpow a)%R by (apply bpow_lt; lia). lra. }
  pose proof (pow2_PosFinite a ltac:(lia)) as Pa.
  pose proof (pow2_PosFinite b ltac:(lia)) as Pb.
  assert (La : Double.le (pow2 a) f = true).
  { eapply Rounded_mono; [|apply Rounded_PosFinite, Pa|exact Hf].
    rewrite B2R_pow2. exact Hl. }
  assert (Lb : Double.le f (pow2 b) = true).
  { eapply Rounded_mono; [|exact Hf|apply Rounded_PosFinite, Pb].
    rewrite B2R_pow2. exact Hu. }
  assert (Pf : PosFinite f).
  { eapply PosFinite_between; [exact Pa|exact Pb| |exact La|exact Lb].
    eapply Rounded_valid, Hf. }
  split; [assumption|].
  rewrite <- (B2R_pow2 a), <- (B2R_pow2 b).
  split; apply SFleb_B2R; assumption.
Qed.

Lemma add_of_int N :
  0 <= N < 2 ^ 53 - 1 ->
  Double.add (Double.of_int N) (Double.of_int 1) = Double.of_int (N + 1).
Proof.
  intros HN. destruct (Z.eq_dec N 0) as [->|Hne]; [reflexivity|].
  destruct (of_int_exact N ltac:(lia)) as [PN VN].
  destruct (of_int_exact 1 ltac:(lia)) as [P1 V1].
  destruct (of_int_exact (N + 1) ltac:(lia)) as [PS VS].
  eapply Rounded_unique; [apply SFadd_correct; assumption|].
  rewrite VN, V1, <- plus_IZR, <- VS. apply Rounded_PosFinite, PS.
Qed.

Lemma to_int32_small z : - 2 ^ 31 <= z < 2 ^ 31 -> to_int32 z = z.
Proof. intros H. unfold to_int32. rewrite Z.mod_small; lia. Qed.

Lemma footprint_ratio_eq cfg fc :
  0 <= fc -> fc < 2 ^ 31 - 1 -> 0 <= mNumFootprintClasses cfg < 2 ^ 53 - 1 ->
  footprint_ratio cfg fc =
  Double.div (Double.of_int (fc + 1))
             (Double.of_int (mNumFootprintClasses cfg + 1)).
Proof.
  intros H0 H1 HN. unfold footprint_ratio.
  rewrite to_int32_small, add_of_int by lia. reflexivity.
Qed.

Lemma IZR_quotient_le_1 a b : 0 < a <= b -> (IZR a / IZR b <= 1)%R.
Proof.
  intros [Ha Hab]. apply IZR_le in Hab. apply IZR_lt in Ha.
  apply Rmult_le_reg_r with (IZR b); [lra|].
  unfold Rdiv. rewrite Rmult_assoc, Rinv_l by lra. lra.
Qed.

Lemma IZR_quotient_ge a b j :
  0 < a -> 0 < b <= 2 ^ j -> 0 <= j -> (bpow (- j) <= IZR a / IZR b)%R.
Proof.
  intros Ha [Hb Hbj] Hj.
  assert (Ha' : (1 <= IZR a)%R) by (apply IZR_le; lia).
  assert (Hb' : (0 < IZR b)%R) by (apply IZR_lt; lia).
  apply IZR_le in Hbj. rewrite <- bpow_IZR in Hbj by assumption.
  pose proof (bpow_opp_r j) as Ho. pose proof (bpow_gt_0 (- j)).
  apply Rmult_le_reg_r with (IZR b); [lra|].
  unfold Rdiv. rewrite Rmult_assoc, Rinv_l by lra. nra.
Qed.

(** The footprint divisor is a float in (0, 1]. *)
Lemma footprint_ratio_range cfg fc :
  0 <= fc <= mNumFootprintClasses cfg -> mNumFootprintClasses cfg < 2 ^ 31 - 1 ->
  PosFinite (footprint_ratio cfg fc) /\
  Double.le (footprint_ratio cfg fc) Double.one = true.
Proof.
  intros Hfc HN. assert (H231 : 2 ^ 31 = 2147483648) by reflexivity.
  assert (H253 : 2 ^ 53 = 9007199254740992) by reflexivity.
  rewrite footprint_ratio_eq by lia.
  set (N := mNumFootprintClasses cfg) in *.
  destruct (of_int_exact (fc + 1) ltac:(lia)) as [Pa Va].
  destruct (of_int_exact (N + 1) ltac:(lia)) as [Pb Vb].
  pose proof (SFdiv_correct _ _ Pa Pb) as Hr. rewrite Va, Vb in Hr.
  assert (Hq1 : (IZR (fc + 1) / IZR (N + 1) <= 1)%R)
    by (apply IZR_quotient_le_1; lia).
  assert (Hq0 : (bpow (-31) <= IZR (fc + 1) / IZR (N + 1))%R)
    by (exact (IZR_quotient_ge (fc + 1) (N + 1) 31
                 ltac:(lia) ltac:(lia) ltac:(lia))).
  destruct (Rounded_range _ _ (-31) 0 Hr ltac:(lia) ltac:(lia)) as [Pf _].
  { rewrite bpow_0. split; assumption. }
  split; [assumption|].
  eapply Rounded_mono; [exact Hq1|exact Hr|].
  assert (P1 : PosFinite Double.one) by (split; reflexivity).
  pose proof (Rounded_PosFinite _ P1) as H1.
  replace (B2R Double.one) with 1%R in H1; [exact H1|].
  rewrite <- bpow_0. symmetry. apply (B2R_pow2 0).
Qed.

Lemma div_self x : PosFinite x -> Double.div x x = Double.one.
Proof.
  intros Hx. pose proof (B2R_pos _ Hx).
  eapply (Rounded_representable _ _ (2 ^ 52)%positive (-52));
    [apply SFdiv_correct; assumption|reflexivity|].
  change (IZR (Zpos (2 ^ 52)) * bpow (-52))%R with (IZR (2 ^ 52) * bpow (- (52)))%R.
  rewrite <- bpow_IZR, bpow_opp_r by lia. field. lra.
Qed.

(** At the largest class the divisor is exactly 1. *)
Lemma footprint_ratio_max cfg :
  0 <= mNumFootprintClasses cfg < 2 ^ 31 - 1 ->
  footprint_ratio cfg (mNumFootprintClasses cfg) = Double.one.
Proof.
  intros HN. assert (H231 : 2 ^ 31 = 2147483648) by reflexivity.
  assert (H253 : 2 ^ 53 = 9007199254740992) by reflexivity.
  rewrite footprint_ratio_eq by lia.
  apply div_self. apply of_int_exact. lia.
Qed.

(** At class 0 with [2 ^ j] classes in all the divisor is exactly [2 ^ -j]. *)
Lemma footprint_ratio_min_pow2 cfg j :
  0 <= j <= 30 -> mNumFootprintClasses cfg + 1 = 2 ^ j ->
  footprint_ratio cfg 0 = pow2 (- j).
Proof.
  intros Hj HN. assert (H253 : 2 ^ 53 = 9007199254740992) by reflexivity.
  assert (H231 : 2 ^ 31 = 2147483648) by reflexivity.
  assert (Hp : 0 < 2 ^ j <= 2 ^ 30).
  { split; [apply Z.pow_pos_nonneg; lia|apply Z.pow_le_mono_r; lia]. }
  assert (H230 : 2 ^ 30 = 1073741824) by reflexivity.
  rewrite footprint_ratio_eq by lia. rewrite HN. simpl (0 + 1).
  destruct (of_int_exact 1 ltac:(lia)) as [P1 V1].
  destruct (of_int_exact (2 ^ j) ltac:(lia)) as [Pj Vj].
  pose proof (pow2_PosFinite (- j) ltac:(lia)) as [_ Pp].
  eapply Rounded_representable;
    [apply SFdiv_correct; assumption|exact Pp|].
  rewrite V1, Vj, <- bpow_IZR by lia.
  pose proof (B2R_pow2 (- j)) as Hb. unfold pow2 in Hb. rewrite B2R_finite in Hb.
  rewrite Hb. pose proof (bpow_opp_r j). pose proof (bpow_gt_0 j).
  field_simplify_eq; lra.
Qed.

(** Dividing by [2 ^ -j] is multiplying by [2 ^ j], overflow included. *)
Lemma div_pow2_mul t j :
  0 <= j <= 30 -> NonnegValid t ->
  Double.div t (pow2 (- j)) = Double.mul (Double.of_int (2 ^ j)) t.
Proof.
  intros Hj Ht. assert (H253 : 2 ^ 53 = 9007199254740992) by reflexivity.
  assert (Hp : 0 < 2 ^ j <= 2 ^ 30).
  { split; [apply Z.pow_pos_nonneg; lia|apply Z.pow_le_mono_r; lia]. }
  assert (H230 : 2 ^ 30 = 1073741824) by reflexivity.
  destruct (of_int_exact (2 ^ j) ltac:(lia)) as [Pj Vj].
  pose proof (pow2_PosFinite (- j) ltac:(lia)) as Pp.
  destruct (NonnegValid_cases t Ht) as [->|[->|Pt]].
  - destruct (Double.of_int (2 ^ j)) as [| | |s m e]; try contradiction.
    destruct Pj as [-> _]. reflexivity.
  - destruct (Double.of_int (2 ^ j)) as [| | |s m e]; try contradiction.
    destruct Pj as [-> _]. reflexivity.
  - eapply Rounded_unique; [apply SFdiv_correct; assumption|].
    replace (B2R t / B2R (pow2 (- j)))%R with (B2R (Double.of_int (2 ^ j)) * B2R t)%R.
    + apply SFmul_correct; assumption.
    + rewrite Vj, B2R_pow2, <- bpow_IZR by lia.
      unfold bpow at 2. rewrite powerRZ_neg'. fold (bpow j).
      pose proof (bpow_gt_0 j). field. lra.
Qed.

(** * The objective *)

Lemma bind_ret {A B} (a : A) (k : A -> M B) : bind (ret a) k = k a.
Proof. unfold bind, ret. destruct (k a) as [l r]. reflexivity. Qed.

(** A coordinate inside the grid passes the bounds test and converts to
    an index. *)
Lemma in_bounds_coord x w :
  Double.le (Double.of_int 0) x = true -> Double.lt x w = true ->
  Double.lt x (Double.of_int 0) = false /\ Double.ge x w = false /\
  exists i, Double.to_index x = Some i.
Proof.
  intros H0 Hw. split; [|split].
  - apply (le_not_gt _ _ H0).
  - apply lt_not_ge, Hw.
  - destruct x as [s|s| |s m e]; simpl; eauto.
    + destruct s; [discriminate H0|].
      destruct w as [sw|[]| |sw mw ew]; discriminate Hw.
    + discriminate H0.
Qed.

Lemma in_bounds_check grid x y :
  in_bounds grid x y = true ->
  out_of_bounds grid x y = false /\
  exists ix iy, Double.to_index x = Some ix /\ Double.to_index y = Some iy.
Proof.
  unfold in_bounds, out_of_bounds. rewrite !andb_true_iff.
  intros [[[Hx0 Hxw] Hy0] Hyh].
  destruct (in_bounds_coord _ _ Hx0 Hxw) as (-> & -> & ix & Hix).
  destruct (in_bounds_coord _ _ Hy0 Hyh) as (-> & -> & iy & Hiy).
  split; [reflexivity|]. eauto.
Qed.

(** Converting a cell class to [double] and back loses nothing. *)
Lemma uint8_roundtrip c :
  0 <= c < 2 ^ 8 -> Double.to_index (Double.of_int c) = Some c.
Proof.
  intros Hc.
  assert (Hall : forallb
            (fun n => match Double.to_index (Double.of_int (Z.of_nat n)) with
                      | Some k => k =? Z.of_nat n
                      | None => false
                      end) (seq 0 256) = true) by (vm_compute; reflexivity).
  rewrite forallb_forall in Hall.
  specialize (Hall (Z.to_nat c)). rewrite Z2Nat.id in Hall by lia.
  assert (Hin : In (Z.to_nat c) (seq 0 256)).
  { apply in_seq. change (2 ^ 8) with 256 in Hc. lia. }
  specialize (Hall Hin).
  destruct (Double.to_index (Double.of_int c)) as [k|]; [|discriminate].
  apply Z.eqb_eq in Hall. congruence.
Qed.

Lemma to_uint8_range z : 0 <= to_uint8 z < 2 ^ 8.
Proof. unfold to_uint8. apply Z.mod_pos_bound. reflexivity. Qed.

Lemma to_uint8_idem z : to_uint8 (to_uint8 z) = to_uint8 z.
Proof. unfold to_uint8. apply Z.mod_mod. discriminate. Qed.

Lemma cell_driveability_at grid data x y ix iy :
  Double.to_index x = Some ix -> Double.to_index y = Some iy ->
  cell_driveability grid data x y =
  ret (getDrivability (getTraversabilityClass grid (to_uint8 (data iy ix)))).
Proof.
  intros Hx Hy. unfold cell_driveability, index_of.
  rewrite Hy, bind_ret, Hx, bind_ret.
  rewrite (uint8_roundtrip _ (to_uint8_range _)), bind_ret, to_uint8_idem.
  reflexivity.
Qed.

Section BoundGrid.

Variables (o : TravGridObjective) (grid : TraversabilityGrid) (data : TravData).
Hypothesis Hgrid : mpTravGrid o = Some grid.
Hypothesis Hdata : mpTravData o = Some data.

(** A state inside the grid is charged the cost of its cell. *)
Lemma stateCost_in_bounds s x y fc :
  extract (mEnvType (mConfig o)) s = ret (x, y, fc) ->
  in_bounds grid x y = true ->
  exists d, cell_driveability grid data x y = ret d /\
            stateCost o s = ret (cell_cost grid (mConfig o) d fc).
Proof.
  intros He Hin.
  destruct (in_bounds_check _ _ _ Hin) as (Hout & ix & iy & Hix & Hiy).
  pose proof (cell_driveability_at grid data x y ix iy Hix Hiy) as Hc.
  eexists. split; [exact Hc|].
  unfold stateCost. rewrite Hgrid, He, bind_ret, Hout, Hdata.
  unfold deref. rewrite bind_ret, Hc, bind_ret. reflexivity.
Qed.

Lemma stateCost_of_cell s x y fc d :
  extract (mEnvType (mConfig o)) s = ret (x, y, fc) ->
  in_bounds grid x y = true ->
  cell_driveability grid data x y = ret d ->
  stateCost o s = ret (cell_cost grid (mConfig o) d fc).
Proof.
  intros He Hin Hc.
  destruct (stateCost_in_bounds s x y fc He Hin) as (d' & Hc' & ->).
  rewrite Hc in Hc'. injection Hc' as ->. reflexivity.
Qed.

(** [motionCost] between two footprint-aware states inside the grid. *)
Lemma motionCost_sherpa x1 y1 w1 c1 x2 y2 w2 c2 :
  mEnvType (mConfig o) = ENV_SHERPA ->
  in_bounds grid x1 y1 = true -> in_bounds grid x2 y2 = true ->
  let s1 := SherpaState x1 y1 w1 c1 in
  let s2 := SherpaState x2 y2 w2 c2 in
  let fp_time := fp_time_sec (mConfig o) c1 c2 in
  let mov_time := mov_time_sec grid (mConfig o) x1 y1 x2 y2 in
  exists base,
    StateCostIntegralObjective_motionCost o s1 s2 = ret base /\
    motionCost o s1 s2 =
    ret (if Double.gt fp_time mov_time then Double.infinity
         else with_footprint_change (mConfig o) base fp_time).
Proof.
  intros Henv Hin1 Hin2 s1 s2 fp_time mov_time.
  destruct (stateCost_in_bounds s1 x1 y1 (to_int32 c1))
    as (d1 & _ & Hs1); [rewrite Henv; reflexivity|assumption|].
  destruct (stateCost_in_bounds s2 x2 y2 (to_int32 c2))
    as (d2 & _ & Hs2); [rewrite Henv; reflexivity|assumption|].
  eexists. split.
  - unfold StateCostIntegralObjective_motionCost.
    rewrite Hs1, bind_ret, Hs2, bind_ret. reflexivity.
  - unfold motionCost, StateCostIntegralObjective_motionCost.
    rewrite Hs1, bind_ret, Hs2, !bind_ret, Henv. unfold s1, s2, as_Sherpa.
    rewrite !bind_ret, Hgrid. unfold deref. rewrite bind_ret.
    fold fp_time mov_time. destruct (Double.gt fp_time mov_time); reflexivity.
Qed.

End BoundGrid.

Lemma lt_zero_neq d : Double.lt Double.zero d = true -> Double.eq d Double.zero = false.
Proof.
  destruct d as [s|s| |s m e]; try destruct s; simpl; try discriminate; reflexivity.
Qed.

Lemma cell_cost_feasible grid cfg d fc :
  Double.lt Double.zero d = true ->
  Double.lt Double.zero (mSpeed (mMobility cfg)) = true ->
  cell_cost grid cfg d fc =
  match mEnvType cfg with
  | ENV_SHERPA => Double.div (traversal_time grid cfg d) (footprint_ratio cfg fc)
  | _ => traversal_time grid cfg d
  end.
Proof.
  intros Hd Hv. unfold cell_cost. change (Double.of_int 0) with Double.zero.
  rewrite (lt_zero_neq _ Hd), (lt_zero_neq _ Hv). reflexivity.
Qed.

(** For classes that fit an [int] the wrap-around plays no part. *)
Lemma fp_time_sec_formula cfg c1 c2 :
  0 <= c1 < 2 ^ 31 -> 0 <= c2 < 2 ^ 31 ->
  fp_time_sec cfg c1 c2 =
  Double.mul
    (Double.div (Double.of_int (Z.abs (c1 - c2)))
                (Double.of_int (mNumFootprintClasses cfg)))
    (mTimeToAdaptFootprint cfg).
Proof.
  intros H1 H2. unfold fp_time_sec, abs_int.
  rewrite (to_int32_small (c1 - c2)) by lia.
  rewrite to_int32_small by lia. reflexivity.
Qed.

(** No class change, no footprint time. *)
Lemma fp_time_same_class cfg c :
  0 < mNumFootprintClasses cfg < 2 ^ 53 ->
  Double.is_finite (mTimeToAdaptFootprint cfg) = true ->
  exists s, fp_time_sec cfg c c = S754_zero s.
Proof.
  intros HN HT. unfold fp_time_sec. rewrite Z.sub_diag.
  change (Double.of_int (abs_int (to_int32 0))) with (S754_zero false).
  destruct (of_int_exact _ HN) as [PN _].
  rewrite div_zero_l by assumption.
  destruct (mTimeToAdaptFootprint cfg) as [s|s| |s m e]; try discriminate HT;
    simpl; eauto.
Qed.

(** Adding a zero changes at most the sign of a zero. *)
Lemma add_zero_r base s : same_number (Double.add base (S754_zero s)) base.
Proof.
  destruct base as [[]|sb| |sb mb eb], s; simpl; try (left; reflexivity);
    right; reflexivity.
Qed.

Lemma sign_clear_mov_time grid cfg x1 y1 x2 y2 :
  Double.sign_clear (getScaleX grid) = true ->
  Double.sign_clear (mSpeed (mMobility cfg)) = true ->
  Double.sign_clear (mov_time_sec grid cfg x1 y1 x2 y2) = true.
Proof. intros Hs Hv. unfold mov_time_sec. auto with sign_clear. Qed.

(** A value that is not negative divided by +0 is +infinity, or NaN for
    0 / 0 and NaN / 0. *)
Lemma div_by_zero x :
  Double.sign_clear x = true ->
  Double.div x Double.zero = Double.infinity \/ Double.div x Double.zero = S754_nan.
Proof.
  destruct x as [s|s| |s m e]; simpl; auto; intros H;
    apply negb_true_iff in H; subst; auto.
Qed.

Lemma not_gt_inf_or_nan a m :
  m = Double.infinity \/ m = S754_nan -> Double.gt a m = false.
Proof.
  intros [-> | ->]; destruct a as [s|[]| |s ma ea]; reflexivity.
Qed.

(** [numeric_limits<double>::max()] bounds every finite double. *)
Lemma max_is_largest f :
  Double.valid f = true -> Double.is_finite f = true -> Double.le f Double.max = true.
Proof.
  change Double.max with (S754_finite false 9007199254740991 971).
  destruct f as [s|s| |s m e]; try discriminate; intros Hv _.
  - reflexivity.
  - unfold Double.valid, valid_binary in Hv. apply bounded_range in Hv.
    destruct Hv as (He & Hm & _). rewrite pow2_53 in Hm.
    unfold Double.le, SFleb. cbn [SFcompare]. destruct s; [reflexivity|].
    destruct (Z.compare_spec e 971) as [->|Hlt|Hgt]; [|reflexivity|lia].
    rewrite Pos.compare_cont_spec. simpl.
    destruct (Pos.compare_spec m 9007199254740991); try reflexivity. lia.
Qed.

Lemma cell_cost_infeasible grid cfg d fc :
  Double.eq d Double.zero || Double.eq (mSpeed (mMobility cfg)) Double.zero = true ->
  cell_cost grid cfg d fc = Double.max.
Proof.
  intros H. unfold cell_cost. change (Double.of_int 0) with Double.zero.
  rewrite H. reflexivity.
Qed.

Lemma PosFinite_neq_zero d : PosFinite d -> Double.eq d Double.zero = false.
Proof. destruct d as [| | |s m e]; try contradiction. intros [-> _]. reflexivity. Qed.

Lemma PosFinite_gt_zero d : PosFinite d -> Double.lt Double.zero d = true.
Proof. destruct d as [| | |s m e]; try contradiction. intros [-> _]. reflexivity. Qed.

Lemma cell_cost_pos grid cfg d fc :
  PosFinite d -> PosFinite (mSpeed (mMobility cfg)) ->
  cell_cost grid cfg d fc =
  match mEnvType cfg with
  | ENV_SHERPA => Double.div (traversal_time grid cfg d) (footprint_ratio cfg fc)
  | _ => traversal_time grid cfg d
  end.
Proof.
  intros Hd Hv. apply cell_cost_feasible; apply PosFinite_gt_zero; assumption.
Qed.

Lemma traversal_time_nonneg grid cfg d :
  PosFinite (getScaleX grid) -> PosFinite (mSpeed (mMobility cfg)) -> PosFinite d ->
  NonnegValid (traversal_time grid cfg d).
Proof.
  intros Hs Hv Hd. unfold traversal_time.
  apply div_nonneg; [|assumption]. apply div_nonneg; [|assumption].
  apply PosFinite_Nonneg, Hs.
Qed.

Lemma cell_cost_nonneg grid cfg d fc :
  PosFinite (getScaleX grid) -> PosFinite (mSpeed (mMobility cfg)) -> PosFinite d ->
  class_ok cfg fc -> NonnegValid (cell_cost grid cfg d fc).
Proof.
  intros Hs Hv Hd Hfc. rewrite cell_cost_pos by assumption.
  pose proof (traversal_time_nonneg grid cfg d Hs Hv Hd) as Ht.
  unfold class_ok in Hfc.
  destruct (mEnvType cfg); try assumption.
  destruct (Hfc eq_refl) as [H1 H2].
  apply div_nonneg; [assumption|]. apply footprint_ratio_range; assumption.
Qed.

Lemma cell_cost_anti_driveability grid cfg d d' fc :
  PosFinite (getScaleX grid) -> PosFinite (mSpeed (mMobility cfg)) ->
  PosFinite d -> PosFinite d' -> class_ok cfg fc ->
  Double.le d d' = true ->
  Double.le (cell_cost grid cfg d' fc) (cell_cost grid cfg d fc) = true.
Proof.
  intros Hs Hv Hd Hd' Hfc Hle. rewrite !cell_cost_pos by assumption.
  assert (Ht : Double.le (traversal_time grid cfg d') (traversal_time grid cfg d) = true).
  { unfold traversal_time. apply div_anti_den; try assumption.
    apply div_nonneg; [apply PosFinite_Nonneg, Hs|assumption]. }
  unfold class_ok in Hfc.
  destruct (mEnvType cfg); try assumption.
  destruct (Hfc eq_refl) as [H1 H2].
  apply div_mono_num; try assumption;
    try (apply traversal_time_nonneg; assumption).
  apply footprint_ratio_range; assumption.
Qed.

Lemma cell_cost_anti_speed grid cfg v' d fc :
  PosFinite (getScaleX grid) -> PosFinite (mSpeed (mMobility cfg)) ->
  PosFinite v' -> PosFinite d -> class_ok cfg fc ->
  Double.le (mSpeed (mMobility cfg)) v' = true ->
  Double.le (cell_cost grid (with_speed cfg v') d fc) (cell_cost grid cfg d fc) = true.
Proof.
  intros Hs Hv Hv' Hd Hfc Hle.
  rewrite (cell_cost_pos grid cfg) by assumption.
  rewrite (cell_cost_pos grid (with_speed cfg v')) by assumption.
  assert (Ht : Double.le (traversal_time grid (with_speed cfg v') d)
                         (traversal_time grid cfg d) = true).
  { unfold traversal_time. simpl mSpeed.
    apply div_mono_num; try assumption;
      try (apply div_nonneg; [apply PosFinite_Nonneg, Hs|assumption]).
    apply div_anti_den; try assumption. apply PosFinite_Nonneg, Hs. }
  unfold class_ok in Hfc. simpl mEnvType.
  destruct (mEnvType cfg); try assumption.
  destruct (Hfc eq_refl) as [H1 H2].
  change (footprint_ratio (with_speed cfg v') fc) with (footprint_ratio cfg fc).
  apply div_mono_num; try assumption.
  - apply (traversal_time_nonneg grid (with_speed cfg v') d); assumption.
  - apply traversal_time_nonneg; assumption.
  - apply footprint_ratio_range; assumption.
Qed.

Lemma within_B2R a b x :
  -1022 <= a -> b <= 1023 -> a <= b -> PosFinite x -> within a b x = true ->
  (bpow a <= B2R x <= bpow b)%R.
Proof.
  intros Ha Hb Hab Hx H. unfold within in H. apply andb_true_iff in H.
  destruct H as [Hl Hu].
  rewrite <- (B2R_pow2 a), <- (B2R_pow2 b).
  split; apply SFleb_B2R; try assumption; apply pow2_PosFinite; lia.
Qed.

Lemma quotient_range x y a b c d :
  (bpow a <= x <= bpow b)%R -> (bpow c <= y <= bpow d)%R ->
  (bpow (a - d) <= x / y <= bpow (b - c))%R.
Proof.
  intros [Hxl Hxu] [Hyl Hyu].
  pose proof (bpow_gt_0 a). pose proof (bpow_gt_0 c).
  pose proof (bpow_gt_0 (a - d)). pose proof (bpow_gt_0 (b - c)).
  assert (E1 : (bpow (a - d) * bpow d = bpow a)%R)
    by (rewrite <- bpow_add; f_equal; lia).
  assert (E2 : (bpow (b - c) * bpow c = bpow b)%R)
    by (rewrite <- bpow_add; f_equal; lia).
  assert (Hy : (0 < y)%R) by lra.
  assert (Hq : (x / y * y = x)%R) by (field; lra).
  split; apply Rmult_le_reg_r with y; try assumption; rewrite Hq; nra.
Qed.

Lemma div_range x y a b c d :
  PosFinite x -> PosFinite y ->
  (bpow a <= B2R x <= bpow b)%R -> (bpow c <= B2R y <= bpow d)%R ->
  -1022 <= a - d -> b - c <= 1023 ->
  PosFinite (Double.div x y) /\
  (bpow (a - d) <= B2R (Double.div x y) <= bpow (b - c))%R.
Proof.
  intros Px Py Hx Hy Hl Hu.
  apply (Rounded_range (B2R x / B2R y)); try assumption.
  - apply SFdiv_correct; assumption.
  - apply quotient_range; assumption.
Qed.

Lemma footprint_ratio_B2R cfg fc :
  0 <= fc <= mNumFootprintClasses cfg -> mNumFootprintClasses cfg < 2 ^ 31 - 1 ->
  (bpow (-31) <= B2R (footprint_ratio cfg fc) <= bpow 0)%R.
Proof.
  intros Hfc HN. assert (H231 : 2 ^ 31 = 2147483648) by reflexivity.
  assert (H253 : 2 ^ 53 = 9007199254740992) by reflexivity.
  rewrite footprint_ratio_eq by lia.
  set (N := mNumFootprintClasses cfg) in *.
  destruct (of_int_exact (fc + 1) ltac:(lia)) as [Pa Va].
  destruct (of_int_exact (N + 1) ltac:(lia)) as [Pb Vb].
  pose proof (SFdiv_correct _ _ Pa Pb) as Hr. rewrite Va, Vb in Hr.
  apply (Rounded_range _ _ (-31) 0 Hr); try lia.
  rewrite bpow_0. split.
  - exact (IZR_quotient_ge (fc + 1) (N + 1) 31 ltac:(lia) ltac:(lia) ltac:(lia)).
  - apply IZR_quotient_le_1; lia.
Qed.

(** Away from the ends of the exponent range the cost neither overflows
    nor underflows. *)
Lemma cell_cost_finite grid cfg d fc :
  PosFinite (getScaleX grid) -> PosFinite (mSpeed (mMobility cfg)) -> PosFinite d ->
  class_ok cfg fc ->
  within (-300) 300 (getScaleX grid) = true ->
  within (-300) 300 (mSpeed (mMobility cfg)) = true ->
  within (-300) 300 d = true ->
  PosFinite (cell_cost grid cfg d fc).
Proof.
  intros Ps Pv Pd Hfc Ws Wv Wd. rewrite cell_cost_pos by assumption.
  apply within_B2R in Ws, Wv, Wd; try assumption; try lia.
  destruct (div_range _ _ _ _ _ _ Ps Pv Ws Wv ltac:(lia) ltac:(lia)) as [PA RA].
  destruct (div_range _ _ _ _ _ _ PA Pd RA Wd ltac:(lia) ltac:(lia)) as [Pt Rt].
  fold (traversal_time grid cfg d) in Pt, Rt.
  unfold class_ok in Hfc. destruct (mEnvType cfg); try assumption.
  destruct (Hfc eq_refl) as [H1 H2].
  pose proof (footprint_ratio_range cfg fc H1 H2) as [Pr _].
  pose proof (footprint_ratio_B2R cfg fc H1 H2) as Rr.
  apply (div_range _ _ _ _ _ _ Pt Pr Rt Rr); lia.
Qed.

(** * The specification's claims *)

(** C1: in the footprint-aware variant, for every pair of states inside
    the grid, whenever the footprint time
    [(|c1 - c2| / numFootprintClasses) * timeToAdaptFootprint] is strictly
    greater than the movement time [(planar distance * scale) / speed],
    [motionCost] returns the infeasible sentinel (+infinity), whatever the
    two state costs are. *)
Theorem motionCost_footprint_infeasible o grid data x1 y1 w1 c1 x2 y2 w2 c2 :
  mEnvType (mConfig o) = ENV_SHERPA ->
  mpTravGrid o = Some grid -> mpTravData o = Some data ->
  in_bounds grid x1 y1 = true -> in_bounds grid x2 y2 = true ->
  Double.gt (fp_time_sec (mConfig o) c1 c2)
            (mov_time_sec grid (mConfig o) x1 y1 x2 y2) = true ->
  motionCost o (SherpaState x1 y1 w1 c1) (SherpaState x2 y2 w2 c2) =
  ret Double.infinity.
Proof.
  intros Henv Hg Hd Hin1 Hin2 Hgt.
  destruct (motionCost_sherpa o grid data Hg Hd x1 y1 w1 c1 x2 y2 w2 c2
              Henv Hin1 Hin2) as (base & _ & Hm).
  cbv zeta in Hm. rewrite Hm, Hgt. reflexivity.
Qed.

(** The spec's example: five cells apart at speed 1 (movement time 5),
    a change over the full range of one class step taking 10; both state
    costs are finite (4 and 2). *)
Lemma motionCost_footprint_infeasible_witness :
  fp_time_sec (mConfig ex_infeasible) 0 1 = Double.of_int 10 /\
  mov_time_sec (uniform_grid 10 10 Double.one Double.half) (mConfig ex_infeasible)
    (Double.of_int 1) (Double.of_int 1) (Double.of_int 6) (Double.of_int 1)
  = Double.of_int 5 /\
  stateCost ex_infeasible
    (SherpaState (Double.of_int 1) (Double.of_int 1) Double.zero 0)
  = ret (Double.of_int 4) /\
  stateCost ex_infeasible
    (SherpaState (Double.of_int 6) (Double.of_int 1) Double.zero 1)
  = ret (Double.of_int 2) /\
  motionCost ex_infeasible
    (SherpaState (Double.of_int 1) (Double.of_int 1) Double.zero 0)
    (SherpaState (Double.of_int 6) (Double.of_int 1) Double.zero 1)
  = ret Double.infinity.
Proof.
  split; [vm_compute; reflexivity|].
  split; [vm_compute; reflexivity|].
  split; [vm_compute; reflexivity|].
  split; [vm_compute; reflexivity|].
  apply (motionCost_footprint_infeasible _
           (uniform_grid 10 10 Double.one Double.half) uniform_data);
    reflexivity.
Defined.

(** C2: for every state inside the grid whose cell has drivability [d]
    in (0, 1], and for a speed [v > 0], [stateCost] returns
    [(scale / v) / d], divided by the footprint ratio only in the
    footprint-aware variant; in particular with scale 1.0, drivability 0.5
    everywhere and speed 2.0 every cell of a 10 x 10 grid costs exactly
    1.0 in the planar variants. *)
Theorem stateCost_traversal_time :
  (forall o grid data s x y fc d,
     mpTravGrid o = Some grid -> mpTravData o = Some data ->
     extract (mEnvType (mConfig o)) s = ret (x, y, fc) ->
     in_bounds grid x y = true ->
     cell_driveability grid data x y = ret d ->
     Double.lt Double.zero d = true -> Double.le d Double.one = true ->
     Double.lt Double.zero (mSpeed (mMobility (mConfig o))) = true ->
     stateCost o s =
     ret (match mEnvType (mConfig o) with
          | ENV_SHERPA =>
              Double.div
                (Double.div
                   (Double.div (getScaleX grid) (mSpeed (mMobility (mConfig o)))) d)
                (footprint_ratio (mConfig o) fc)
          | _ =>
              Double.div
                (Double.div (getScaleX grid) (mSpeed (mMobility (mConfig o)))) d
          end)) /\
  (forall distance data env classes adapt_time penalty s x y fc,
     env = ENV_XY \/ env = ENV_XYTHETA ->
     extract env s = ret (x, y, fc) ->
     in_bounds (uniform_grid 10 10 Double.one Double.half) x y = true ->
     stateCost
       (mkTravGridObjective distance
          (Some (uniform_grid 10 10 Double.one Double.half)) (Some data)
          (mkConfig env (mkMobility (Double.of_int 2)) classes adapt_time penalty))
       s = ret Double.one).
Proof.
  split.
  - intros o grid data s x y fc d Hg Hd He Hin Hc Hd0 Hd1 Hv.
    rewrite (stateCost_of_cell o grid data Hg Hd s x y fc d He Hin Hc).
    rewrite cell_cost_feasible by assumption. reflexivity.
  - intros distance data env classes adapt_time penalty s x y fc Henv He Hin.
    set (grid := uniform_grid 10 10 Double.one Double.half).
    set (o := mkTravGridObjective _ _ _ _).
    destruct (stateCost_in_bounds o grid data eq_refl eq_refl s x y fc He Hin)
      as (d & Hc & ->).
    destruct (in_bounds_check _ _ _ Hin) as (_ & ix & iy & Hix & Hiy).
    rewrite (cell_driveability_at grid data x y ix iy Hix Hiy) in Hc.
    injection Hc as <-.
    destruct Henv as [-> | ->]; reflexivity.
Qed.

(** Two cells of the example grid. *)
Lemma stateCost_traversal_time_witness :
  stateCost ex_planar (SE2State (Double.of_int 3) (Double.of_int 4) Double.zero)
  = ret (Double.div (Double.div Double.one (Double.of_int 2)) Double.half) /\
  stateCost ex_planar (SE2State (Double.of_int 9) (Double.of_int 0) Double.zero)
  = ret Double.one.
Proof.
  split.
  - apply (proj1 stateCost_traversal_time ex_planar
             (uniform_grid 10 10 Double.one Double.half) uniform_data _
             (Double.of_int 3) (Double.of_int 4) 0 Double.half); reflexivity.
  - apply (proj2 stateCost_traversal_time planar_distance uniform_data ENV_XYTHETA
             3 Double.one Double.one _ (Double.of_int 9) (Double.of_int 0) 0);
      [right; reflexivity|reflexivity|reflexivity].
Defined.

(** C3 (amended): in the footprint-aware variant the finite state cost is
    the traversal time divided by the rounded ratio
    [(footprintClass + 1) / (numFootprintClasses + 1)]; for every class in
    [0, numFootprintClasses] the ratio lies in (0, 1], so the division
    never decreases the cost; the cost at the largest class is the
    undivided traversal time; and the cost at class 0 is exactly
    [numFootprintClasses + 1] times it whenever that number is a power of
    two (4 times when there are 3 classes). *)
Theorem footprint_scaling o grid data x y w d :
  mEnvType (mConfig o) = ENV_SHERPA ->
  mpTravGrid o = Some grid -> mpTravData o = Some data ->
  in_bounds grid x y = true ->
  cell_driveability grid data x y = ret d ->
  Double.pos_finite (getScaleX grid) = true ->
  Double.pos_finite (mSpeed (mMobility (mConfig o))) = true ->
  Double.pos_finite d = true ->
  0 <= mNumFootprintClasses (mConfig o) < 2 ^ 31 - 1 ->
  (forall fc, 0 <= fc <= mNumFootprintClasses (mConfig o) ->
     stateCost o (SherpaState x y w fc) =
     ret (Double.div (traversal_time grid (mConfig o) d)
                     (footprint_ratio (mConfig o) fc)) /\
     Double.lt Double.zero (footprint_ratio (mConfig o) fc) = true /\
     Double.le (footprint_ratio (mConfig o) fc) Double.one = true /\
     Double.le (traversal_time grid (mConfig o) d)
               (Double.div (traversal_time grid (mConfig o) d)
                           (footprint_ratio (mConfig o) fc)) = true) /\
  stateCost o (SherpaState x y w (mNumFootprintClasses (mConfig o))) =
  ret (traversal_time grid (mConfig o) d) /\
  (forall j, 0 <= j <= 30 -> mNumFootprintClasses (mConfig o) + 1 = 2 ^ j ->
     stateCost o (SherpaState x y w 0) =
     ret (Double.mul (Double.of_int (mNumFootprintClasses (mConfig o) + 1))
                     (traversal_time grid (mConfig o) d))).
Proof.
  intros Henv Hg Hd Hin Hc Ps Pv Pd HN.
  apply pos_finite_spec in Ps, Pv, Pd.
  assert (H231 : 2 ^ 31 = 2147483648) by reflexivity.
  pose proof (traversal_time_nonneg grid (mConfig o) d Ps Pv Pd) as Ht.
  assert (Hcost : forall fc, 0 <= fc <= mNumFootprintClasses (mConfig o) ->
            stateCost o (SherpaState x y w fc) =
            ret (Double.div (traversal_time grid (mConfig o) d)
                            (footprint_ratio (mConfig o) fc))).
  { intros fc Hfc.
    rewrite (stateCost_of_cell o grid data Hg Hd _ x y (to_int32 fc) d);
      try assumption; [|rewrite Henv; reflexivity].
    rewrite cell_cost_pos, Henv, to_int32_small by (assumption || lia).
    reflexivity. }
  split; [|split].
  - intros fc Hfc. split; [apply Hcost, Hfc|].
    destruct (footprint_ratio_range (mConfig o) fc Hfc ltac:(lia)) as [Pr Hle].
    split; [apply PosFinite_gt_zero, Pr|]. split; [exact Hle|].
    apply div_ge_self; assumption.
  - rewrite Hcost by lia. rewrite footprint_ratio_max, div_one by assumption.
    reflexivity.
  - intros j Hj HNj. rewrite Hcost by lia.
    rewrite (footprint_ratio_min_pow2 _ j Hj HNj), HNj.
    rewrite div_pow2_mul by assumption. reflexivity.
Qed.

(** With three classes on the example grid: class 3 costs 1, class 0
    costs 4 times 1. *)
Lemma footprint_scaling_witness :
  stateCost ex_footprint
    (SherpaState (Double.of_int 3) (Double.of_int 4) Double.zero 3)
  = ret Double.one /\
  stateCost ex_footprint
    (SherpaState (Double.of_int 3) (Double.of_int 4) Double.zero 0)
  = ret (Double.mul (Double.of_int 4) Double.one) /\
  Double.le (footprint_ratio (mConfig ex_footprint) 1) Double.one = true.
Proof.
  destruct (footprint_scaling ex_footprint
              (uniform_grid 10 10 Double.one Double.half) uniform_data
              (Double.of_int 3) (Double.of_int 4) Double.zero Double.half)
    as (H1 & H2 & H3); try reflexivity.
  - simpl. lia.
  - split; [exact H2|]. split.
    + apply (H3 2); [lia|reflexivity].
    + apply (H1 1). simpl. lia.
Defined.

(** C3 as stated fails when [numFootprintClasses + 1] is not a power of
    two: with 2 classes, scale 1.0, speed 0.1 and drivability 0.3 the
    class-0 cost is 100.00000000000001 while three times the class-2 cost
    is 100.0. *)
Lemma class0_cost_not_3x :
  stateCost ex_three_classes
    (SherpaState (Double.of_int 3) (Double.of_int 4) Double.zero 0)
  = ret (S754_finite false 7036874417766401 (-46)) /\
  stateCost ex_three_classes
    (SherpaState (Double.of_int 3) (Double.of_int 4) Double.zero 2)
  = ret (S754_finite false 4691249611844267 (-47)) /\
  Double.mul (Double.of_int 3) (S754_finite false 4691249611844267 (-47))
  = S754_finite false 7036874417766400 (-46) /\
  Double.eq (S754_finite false 7036874417766401 (-46))
            (S754_finite false 7036874417766400 (-46)) = false.
Proof. repeat split; vm_compute; reflexivity. Qed.

(** C4: for every state inside the grid, if the cell's drivability is 0 or
    the configured speed is 0, [stateCost] returns the infeasible sentinel
    [numeric_limits<double>::max()]: no exception, no traversal time. *)
Theorem stateCost_impassable o grid data s x y fc d :
  mpTravGrid o = Some grid -> mpTravData o = Some data ->
  extract (mEnvType (mConfig o)) s = ret (x, y, fc) ->
  in_bounds grid x y = true ->
  cell_driveability grid data x y = ret d ->
  Double.eq d Double.zero = true \/
  Double.eq (mSpeed (mMobility (mConfig o))) Double.zero = true ->
  stateCost o s = ret Double.max.
Proof.
  intros Hg Hd He Hin Hc Hz.
  rewrite (stateCost_of_cell o grid data Hg Hd s x y fc d He Hin Hc).
  unfold cell_cost. change (Double.of_int 0) with Double.zero.
  destruct Hz as [-> | ->]; [|rewrite orb_true_r]; reflexivity.
Qed.

(** An impassable cell, and a robot that does not move. *)
Lemma stateCost_impassable_witness :
  stateCost
    (example_objective ENV_SHERPA Double.one Double.zero (Double.of_int 2)
       3 Double.one Double.one)
    (SherpaState (Double.of_int 3) (Double.of_int 4) Double.zero 1) = ret Double.max /\
  stateCost
    (example_objective ENV_XY Double.one Double.half Double.zero
       3 Double.one Double.one)
    (RealVectorState [Double.of_int 3; Double.of_int 4]) = ret Double.max.
Proof.
  split.
  - apply (stateCost_impassable _ (uniform_grid 10 10 Double.one Double.zero)
             uniform_data _ (Double.of_int 3) (Double.of_int 4) 1 Double.zero);
      try reflexivity. left; reflexivity.
  - apply (stateCost_impassable _ (uniform_grid 10 10 Double.one Double.half)
             uniform_data _ (Double.of_int 3) (Double.of_int 4) 0 Double.half);
      try reflexivity. right; reflexivity.
Defined.

(** Two doubles that are not NaN always compare. *)
Lemma SFcompare_not_nan a x :
  Double.is_nan a = false -> Double.is_nan x = false ->
  SFcompare a x <> None.
Proof.
  destruct a as [sa|sa| |sa ma ea], x as [sx|sx| |sx mx ex];
    try discriminate; intros _ _; simpl;
    try (destruct sa; discriminate); try (destruct sx; discriminate);
    try (destruct sa, sx; discriminate).
Qed.

Lemma not_le_lt a x :
  Double.is_nan a = false -> Double.is_nan x = false ->
  Double.le a x = false -> Double.lt x a = true.
Proof.
  intros Ha Hx. pose proof (SFcompare_not_nan a x Ha Hx) as Hc.
  unfold Double.le, Double.lt, SFleb, SFltb. rewrite (SFcompare_antisym a x).
  destruct (SFcompare a x) as [[]|]; simpl; congruence.
Qed.

Lemma not_lt_ge x a :
  Double.is_nan a = false -> Double.is_nan x = false ->
  Double.lt x a = false -> Double.ge x a = true.
Proof.
  intros Ha Hx. pose proof (SFcompare_not_nan x a Hx Ha) as Hc.
  unfold Double.ge, Double.lt, SFleb, SFltb. rewrite (SFcompare_antisym x a).
  destruct (SFcompare x a) as [[]|]; simpl; congruence.
Qed.

(** The grid's sizes convert to doubles that are not NaN. *)
Lemma of_int_not_nan w : 0 <= w -> Double.is_nan (Double.of_int w) = false.
Proof.
  intros Hw. destruct (Z.eq_dec w 0) as [->|Hne]; [reflexivity|].
  pose proof (Rounded_valid _ _ (of_int_correct w ltac:(lia))) as Hv.
  unfold Double.of_int.
  destruct (binary_normalize _ _ w 0 false); simpl in Hv; try reflexivity.
  contradiction.
Qed.

(** For positions that are numbers, failing [in_bounds] is passing the
    code's test. *)
Lemma outside_grid_check grid x y :
  0 <= getCellSizeX grid -> 0 <= getCellSizeY grid ->
  Double.is_nan x = false -> Double.is_nan y = false ->
  in_bounds grid x y = false -> out_of_bounds grid x y = true.
Proof.
  intros Hw Hh Nx Ny Hin. unfold in_bounds in Hin. unfold out_of_bounds.
  pose proof (of_int_not_nan _ Hw) as NW. pose proof (of_int_not_nan _ Hh) as NH.
  assert (N0 : Double.is_nan (Double.of_int 0) = false) by reflexivity.
  rewrite !andb_false_iff in Hin. rewrite !orb_true_iff.
  destruct Hin as [[[H|H]|H]|H].
  - left. left. left. apply (not_le_lt _ _ N0 Nx H).
  - left. left. right. apply (not_lt_ge _ _ NW Nx H).
  - left. right. apply (not_le_lt _ _ N0 Ny H).
  - right. apply (not_lt_ge _ _ NH Ny H).
Qed.

(** Every state whose extracted position is a pair of numbers outside
    [0, width) x [0, height) is rejected: [stateCost] logs the warning and
    throws the invalid-state error, and no cost is returned. *)
Theorem stateCost_out_of_bounds o grid s x y fc :
  mpTravGrid o = Some grid ->
  extract (mEnvType (mConfig o)) s = ret (x, y, fc) ->
  0 <= getCellSizeX grid -> 0 <= getCellSizeY grid ->
  Double.is_nan x = false -> Double.is_nan y = false ->
  in_bounds grid x y = false ->
  stateCost o s =
  ([LOG_WARN "Invalid state (%4.2f, %4.2f) has been passed and will be ignored"
             [x; y]],
   Throw (runtime_error "Invalid state received")).
Proof.
  intros Hg He Hw Hh Nx Ny Hin.
  pose proof (outside_grid_check grid x y Hw Hh Nx Ny Hin) as Hout.
  unfold stateCost. rewrite Hg, He, bind_ret, Hout. reflexivity.
Qed.

(** [x = width] and [x = -1] on the 10 x 10 grid. *)
Lemma stateCost_out_of_bounds_witness :
  stateCost ex_planar (SE2State (Double.of_int 10) (Double.of_int 4) Double.zero) =
  ([LOG_WARN "Invalid state (%4.2f, %4.2f) has been passed and will be ignored"
             [Double.of_int 10; Double.of_int 4]],
   Throw (runtime_error "Invalid state received")) /\
  stateCost ex_planar (SE2State (Double.of_int (-1)) (Double.of_int 4) Double.zero) =
  ([LOG_WARN "Invalid state (%4.2f, %4.2f) has been passed and will be ignored"
             [Double.of_int (-1); Double.of_int 4]],
   Throw (runtime_error "Invalid state received")).
Proof.
  split.
  - apply (stateCost_out_of_bounds _ (uniform_grid 10 10 Double.one Double.half) _ _ _ 0);
      try reflexivity; simpl; lia.
  - apply (stateCost_out_of_bounds _ (uniform_grid 10 10 Double.one Double.half) _ _ _ 0);
      try reflexivity; simpl; lia.
Defined.

(** C5: the claim that every state whose extracted position lies outside
    [0, width) x [0, height) fails with the out-of-bounds error and a
    diagnostic does not hold of the code at a NaN coordinate.  The position
    (NaN, 4) is not inside the 10 x 10 grid, and so is (4, NaN) and
    (NaN, NaN); but every comparison with a NaN is false, so the test
    [x < 0 || x >= width || y < 0 || y >= height] does not fire: nothing is
    logged, nothing is thrown, and [stateCost] goes on to use the NaN as an
    array index, which is undefined. *)
Theorem stateCost_nan_not_rejected :
  let grid := uniform_grid 10 10 Double.one Double.half in
  (in_bounds grid S754_nan (Double.of_int 4) = false /\
   out_of_bounds grid S754_nan (Double.of_int 4) = false /\
   stateCost ex_planar (SE2State S754_nan (Double.of_int 4) Double.zero)
   = ([], Undefined)) /\
  (in_bounds grid (Double.of_int 4) S754_nan = false /\
   out_of_bounds grid (Double.of_int 4) S754_nan = false /\
   stateCost ex_planar (SE2State (Double.of_int 4) S754_nan Double.zero)
   = ([], Undefined)) /\
  (in_bounds grid S754_nan S754_nan = false /\
   out_of_bounds grid S754_nan S754_nan = false /\
   stateCost ex_planar (SE2State S754_nan S754_nan Double.zero)
   = ([], Undefined)).
Proof. repeat split; vm_compute; reflexivity. Qed.

(** C6: while no grid is bound, every call of [stateCost] throws the
    no-grid error, whatever the state and the configuration, before
    anything is extracted, logged or computed. *)
Theorem stateCost_no_grid o s :
  mpTravGrid o = None ->
  stateCost o s =
  ([], Throw (runtime_error "TravGridObjective: No traversability grid available")).
Proof. intros H. unfold stateCost. rewrite H. reflexivity. Qed.

(** An objective built without a grid, asked about a state it could not
    even read. *)
Lemma stateCost_no_grid_witness :
  stateCost
    (TravGridObjective_new planar_distance
       (mkConfig ENV_OTHER (mkMobility Double.one) 3 Double.one Double.one))
    (RealVectorState []) =
  ([], Throw (runtime_error "TravGridObjective: No traversability grid available")).
Proof. apply stateCost_no_grid. reflexivity. Defined.

(** C7: in the footprint-aware variant, when both states have the same
    footprint class the adaptation term is zero: the footprint time is 0,
    no penalty is added, the infeasibility test does not fire, and
    [motionCost] is the base segment cost.  (The number of classes is
    positive, the adaptation time finite, scale and speed not negative.) *)
Theorem motionCost_same_footprint o grid data x1 y1 w1 x2 y2 w2 c :
  mEnvType (mConfig o) = ENV_SHERPA ->
  mpTravGrid o = Some grid -> mpTravData o = Some data ->
  in_bounds grid x1 y1 = true -> in_bounds grid x2 y2 = true ->
  0 < mNumFootprintClasses (mConfig o) < 2 ^ 32 ->
  Double.is_finite (mTimeToAdaptFootprint (mConfig o)) = true ->
  Double.sign_clear (getScaleX grid) = true ->
  Double.sign_clear (mSpeed (mMobility (mConfig o))) = true ->
  Double.eq (fp_time_sec (mConfig o) c c) Double.zero = true /\
  Double.gt (fp_time_sec (mConfig o) c c) (Double.of_int 0) = false /\
  Double.gt (fp_time_sec (mConfig o) c c)
            (mov_time_sec grid (mConfig o) x1 y1 x2 y2) = false /\
  exists base cost,
    StateCostIntegralObjective_motionCost o
      (SherpaState x1 y1 w1 c) (SherpaState x2 y2 w2 c) = ret base /\
    motionCost o (SherpaState x1 y1 w1 c) (SherpaState x2 y2 w2 c) = ret cost /\
    same_number cost base.
Proof.
  intros Henv Hg Hd Hin1 Hin2 HN HT Hs Hv.
  assert (H253 : 2 ^ 32 < 2 ^ 53) by reflexivity.
  destruct (fp_time_same_class (mConfig o) c ltac:(lia) HT) as [s Hfp].
  pose proof (sign_clear_mov_time grid (mConfig o) x1 y1 x2 y2 Hs Hv) as Hmov.
  assert (Hnot : Double.gt (fp_time_sec (mConfig o) c c)
                   (mov_time_sec grid (mConfig o) x1 y1 x2 y2) = false).
  { rewrite Hfp. apply sign_clear_not_lt_zero, Hmov. }
  destruct (motionCost_sherpa o grid data Hg Hd x1 y1 w1 c x2 y2 w2 c
              Henv Hin1 Hin2) as (base & Hbase & Hm).
  cbv zeta in Hm. rewrite Hnot in Hm.
  split; [rewrite Hfp; reflexivity|].
  split; [rewrite Hfp; reflexivity|].
  split; [exact Hnot|].
  exists base, (Double.add base (S754_zero s)). split; [exact Hbase|]. split.
  - rewrite Hm. unfold with_footprint_change. rewrite Hfp. reflexivity.
  - apply add_zero_r.
Qed.

(** Two states of class 2 on the example grid. *)
Lemma motionCost_same_footprint_witness :
  motionCost ex_footprint
    (SherpaState (Double.of_int 1) (Double.of_int 1) Double.zero 2)
    (SherpaState (Double.of_int 4) (Double.of_int 5) Double.zero 2)
  = StateCostIntegralObjective_motionCost ex_footprint
      (SherpaState (Double.of_int 1) (Double.of_int 1) Double.zero 2)
      (SherpaState (Double.of_int 4) (Double.of_int 5) Double.zero 2) /\
  Double.gt (fp_time_sec (mConfig ex_footprint) 2 2)
    (mov_time_sec (uniform_grid 10 10 Double.one Double.half) (mConfig ex_footprint)
       (Double.of_int 1) (Double.of_int 1) (Double.of_int 4) (Double.of_int 5))
  = false.
Proof.
  split; [vm_compute; reflexivity|].
  apply (motionCost_same_footprint ex_footprint
           (uniform_grid 10 10 Double.one Double.half) uniform_data
           (Double.of_int 1) (Double.of_int 1) Double.zero
           (Double.of_int 4) (Double.of_int 5) Double.zero 2);
    try reflexivity. split; reflexivity.
Defined.

(** C8 (amended): for every cell inside the grid with a positive finite
    scale, drivability [d > 0] and speed [v > 0], the state cost is never
    NaN and never negative; it is finite and strictly positive whenever
    scale, speed and drivability lie between [2 ^ -300] and [2 ^ 300]; and
    it is monotonically non-increasing in [d] and in [v], everything else
    held fixed. *)
Theorem stateCost_monotone o grid data s x y fc d :
  mpTravGrid o = Some grid -> mpTravData o = Some data ->
  extract (mEnvType (mConfig o)) s = ret (x, y, fc) ->
  in_bounds grid x y = true ->
  cell_driveability grid data x y = ret d ->
  Double.pos_finite (getScaleX grid) = true ->
  Double.pos_finite (mSpeed (mMobility (mConfig o))) = true ->
  Double.pos_finite d = true ->
  (mEnvType (mConfig o) = ENV_SHERPA ->
   0 <= fc <= mNumFootprintClasses (mConfig o) /\
   mNumFootprintClasses (mConfig o) < 2 ^ 31 - 1) ->
  stateCost o s = ret (cell_cost grid (mConfig o) d fc) /\
  Double.nonneg (cell_cost grid (mConfig o) d fc) = true /\
  (within (-300) 300 (getScaleX grid) = true ->
   within (-300) 300 (mSpeed (mMobility (mConfig o))) = true ->
   within (-300) 300 d = true ->
   Double.pos_finite (cell_cost grid (mConfig o) d fc) = true) /\
  (forall d', Double.pos_finite d' = true -> Double.le d d' = true ->
     Double.le (cell_cost grid (mConfig o) d' fc)
               (cell_cost grid (mConfig o) d fc) = true) /\
  (forall v', Double.pos_finite v' = true ->
     Double.le (mSpeed (mMobility (mConfig o))) v' = true ->
     Double.le (cell_cost grid (with_speed (mConfig o) v') d fc)
               (cell_cost grid (mConfig o) d fc) = true).
Proof.
  intros Hg Hd He Hin Hc Ps Pv Pd Hfc.
  apply pos_finite_spec in Ps, Pv, Pd.
  split; [eapply stateCost_of_cell; eassumption|].
  split; [apply nonneg_spec, cell_cost_nonneg; assumption|].
  split; [intros; apply pos_finite_spec, cell_cost_finite; assumption|].
  split.
  - intros d' Pd' Hle. apply pos_finite_spec in Pd'.
    apply cell_cost_anti_driveability; assumption.
  - intros v' Pv' Hle. apply pos_finite_spec in Pv'.
    apply cell_cost_anti_speed; assumption.
Qed.

(** On the example grid: a higher drivability and a higher speed do not
    raise the cost. *)
Lemma stateCost_monotone_witness :
  stateCost ex_footprint
    (SherpaState (Double.of_int 3) (Double.of_int 4) Double.zero 1)
  = ret (cell_cost (uniform_grid 10 10 Double.one Double.half)
           (mConfig ex_footprint) Double.half 1) /\
  Double.pos_finite
    (cell_cost (uniform_grid 10 10 Double.one Double.half)
       (mConfig ex_footprint) Double.half 1) = true /\
  Double.le
    (cell_cost (uniform_grid 10 10 Double.one Double.half)
       (mConfig ex_footprint) Double.one 1)
    (cell_cost (uniform_grid 10 10 Double.one Double.half)
       (mConfig ex_footprint) Double.half 1) = true /\
  Double.le
    (cell_cost (uniform_grid 10 10 Double.one Double.half)
       (with_speed (mConfig ex_footprint) (Double.of_int 5)) Double.half 1)
    (cell_cost (uniform_grid 10 10 Double.one Double.half)
       (mConfig ex_footprint) Double.half 1) = true.
Proof.
  destruct (stateCost_monotone ex_footprint
              (uniform_grid 10 10 Double.one Double.half) uniform_data
              (SherpaState (Double.of_int 3) (Double.of_int 4) Double.zero 1)
              (Double.of_int 3) (Double.of_int 4) 1 Double.half)
    as (H1 & _ & H3 & H4 & H5); try reflexivity.
  - intros _. simpl. lia.
  - split; [exact H1|]. split; [apply H3; reflexivity|].
    split; [apply H4; reflexivity|apply H5; reflexivity].
Defined.

(** C8 as stated fails at the ends of the exponent range: with scale 1.0,
    drivability 1.0 and the smallest positive speed the cost overflows to
    +infinity (not finite); with the smallest positive scale and speed 2.0
    it underflows to 0 (not strictly positive). *)
Lemma stateCost_overflow :
  Double.valid denorm_min = true /\
  Double.lt Double.zero denorm_min = true /\
  Double.lt Double.zero Double.one = true /\ Double.le Double.one Double.one = true /\
  stateCost ex_overflow (RealVectorState [Double.of_int 3; Double.of_int 4])
  = ret Double.infinity /\
  Double.is_finite Double.infinity = false /\
  stateCost ex_underflow (RealVectorState [Double.of_int 3; Double.of_int 4])
  = ret Double.zero /\
  Double.lt Double.zero Double.zero = false.
Proof. repeat split; vm_compute; reflexivity. Qed.

(** C9: the sentinel [stateCost] returns for zero drivability or zero
    speed is the largest finite double, returned undivided in every
    variant; it is strictly below, and distinct from, the +infinity that
    [motionCost] returns when it forces a transition infeasible. *)
Theorem infeasible_sentinels :
  (forall f, Double.valid f = true -> Double.is_finite f = true ->
             Double.le f Double.max = true) /\
  Double.is_finite Double.max = true /\
  Double.is_finite Double.infinity = false /\
  Double.lt Double.max Double.infinity = true /\
  Double.max <> Double.infinity /\
  (forall o grid data s x y fc d,
     mpTravGrid o = Some grid -> mpTravData o = Some data ->
     extract (mEnvType (mConfig o)) s = ret (x, y, fc) ->
     in_bounds grid x y = true ->
     cell_driveability grid data x y = ret d ->
     Double.eq d Double.zero ||
     Double.eq (mSpeed (mMobility (mConfig o))) Double.zero = true ->
     stateCost o s = ret Double.max) /\
  (forall o grid data x1 y1 w1 c1 x2 y2 w2 c2,
     mEnvType (mConfig o) = ENV_SHERPA ->
     mpTravGrid o = Some grid -> mpTravData o = Some data ->
     in_bounds grid x1 y1 = true -> in_bounds grid x2 y2 = true ->
     Double.gt (fp_time_sec (mConfig o) c1 c2)
               (mov_time_sec grid (mConfig o) x1 y1 x2 y2) = true ->
     motionCost o (SherpaState x1 y1 w1 c1) (SherpaState x2 y2 w2 c2) =
     ret Double.infinity).
Proof.
  split; [exact max_is_largest|].
  split; [reflexivity|]. split; [reflexivity|]. split; [reflexivity|].
  split; [discriminate|]. split.
  - intros o grid data s x y fc d Hg Hd He Hin Hc Hz.
    rewrite (stateCost_of_cell o grid data Hg Hd s x y fc d He Hin Hc).
    rewrite cell_cost_infeasible by assumption. reflexivity.
  - intros o grid data x1 y1 w1 c1 x2 y2 w2 c2 Henv Hg Hd Hin1 Hin2 Hgt.
    destruct (motionCost_sherpa o grid data Hg Hd x1 y1 w1 c1 x2 y2 w2 c2
                Henv Hin1 Hin2) as (base & _ & Hm).
    cbv zeta in Hm. rewrite Hm, Hgt. reflexivity.
Qed.

(** An ordinary double is below the sentinel; a blocked cell in the
    footprint-aware variant; the forced transition of the spec's example. *)
Lemma infeasible_sentinels_witness :
  Double.le (Double.of_int 1000000) Double.max = true /\
  stateCost ex_blocked
    (SherpaState (Double.of_int 3) (Double.of_int 4) Double.zero 0)
  = ret Double.max /\
  motionCost ex_infeasible
    (SherpaState (Double.of_int 1) (Double.of_int 1) Double.zero 0)
    (SherpaState (Double.of_int 6) (Double.of_int 1) Double.zero 1)
  = ret Double.infinity.
Proof.
  split; [|split].
  - apply (proj1 infeasible_sentinels); reflexivity.
  - apply (proj1 (proj2 (proj2 (proj2 (proj2 (proj2 infeasible_sentinels)))))
             ex_blocked (uniform_grid 10 10 Double.one Double.zero) uniform_data _
             (Double.of_int 3) (Double.of_int 4) 0 Double.zero); reflexivity.
  - apply (proj2 (proj2 (proj2 (proj2 (proj2 (proj2 infeasible_sentinels)))))
             ex_infeasible (uniform_grid 10 10 Double.one Double.half) uniform_data);
      reflexivity.
Defined.



(** At speed 0 both state costs are the sentinel, their sum overflows, and
    the base cost of the same transition is +infinity already: the
    transition comes out infinitely expensive without being forced. *)
Remark zero_speed_base_cost_overflows :
  stateCost ex_zero_speed
    (SherpaState (Double.of_int 1) (Double.of_int 1) Double.zero 0)
  = ret Double.max /\
  Double.add Double.max Double.max = Double.infinity /\
  StateCostIntegralObjective_motionCost ex_zero_speed
    (SherpaState (Double.of_int 1) (Double.of_int 1) Double.zero 0)
    (SherpaState (Double.of_int 6) (Double.of_int 1) Double.zero 1)
  = ret Double.infinity /\
  motionCost ex_zero_speed
    (SherpaState (Double.of_int 1) (Double.of_int 1) Double.zero 0)
    (SherpaState (Double.of_int 6) (Double.of_int 1) Double.zero 1)
  = ret Double.infinity.
Proof. repeat split; vm_compute; reflexivity. Qed.

(** * Further properties of the objective *)

(** ** Errors and the log *)

Lemma bind_ret_r {A} (c : M A) : bind c ret = c.
Proof.
  destruct c as [l [a|e|]]; simpl; try reflexivity. rewrite app_nil_r. reflexivity.
Qed.

Lemma fst_bind_nil {A B} (c : M A) (k : A -> M B) :
  fst c = [] -> (forall a, fst (k a) = []) -> fst (bind c k) = [].
Proof.
  destruct c as [l [a|e|]]; simpl; intros -> Hk; try reflexivity.
  specialize (Hk a). destruct (k a) as [l' r]. exact Hk.
Qed.

Lemma fst_index_of d : fst (index_of d) = [].
Proof. unfold index_of. destruct (Double.to_index d); reflexivity. Qed.

Lemma fst_extract env s : fst (extract env s) = [].
Proof.
  destruct env; simpl; try reflexivity.
  - destruct s as [v| |]; try reflexivity. simpl.
    unfold values_at. destruct v as [|x [|y v]]; reflexivity.
  - destruct s; reflexivity.
  - destruct s; reflexivity.
Qed.

Lemma fst_cell_driveability grid data x y :
  fst (cell_driveability grid data x y) = [].
Proof.
  unfold cell_driveability.
  repeat (apply fst_bind_nil; [apply fst_index_of|intros ?]). reflexivity.
Qed.

(** What [stateCost] can have logged: nothing, or the one warning of a
    position that failed the bounds test. *)
Lemma stateCost_log_cases o s :
  fst (stateCost o s) = [] \/
  exists grid x y fc,
    mpTravGrid o = Some grid /\
    extract (mEnvType (mConfig o)) s = ret (x, y, fc) /\
    out_of_bounds grid x y = true /\
    stateCost o s =
    ([LOG_WARN "Invalid state (%4.2f, %4.2f) has been passed and will be ignored"
               [x; y]],
     Throw (runtime_error "Invalid state received")).
Proof.
  unfold stateCost. destruct (mpTravGrid o) as [grid|]; [|left; reflexivity].
  pose proof (fst_extract (mEnvType (mConfig o)) s) as He.
  destruct (extract (mEnvType (mConfig o)) s) as [l [[[x y] fc]|e|]];
    simpl in He; subst l; try (left; reflexivity).
  change (@nil log_entry, @Ok (double * double * Z) (x, y, fc))
    with (ret (x, y, fc)).
  rewrite bind_ret.
  destruct (out_of_bounds grid x y) eqn:Hout.
  - right. exists grid, x, y, fc. auto.
  - left. apply fst_bind_nil; [destruct (mpTravData o); reflexivity|intros data].
    apply fst_bind_nil; [apply fst_cell_driveability|reflexivity].
Qed.

(** X1: with a grid bound and an environment type that is none of the
    three the [switch] names, [stateCost] throws the unknown-environment
    error for every state, without logging; and so does [motionCost], whose
    first step is the cost of its first state. *)
Theorem unknown_environment o grid s1 s2 :
  mpTravGrid o = Some grid -> mEnvType (mConfig o) = ENV_OTHER ->
  stateCost o s1 =
  ([], Throw (runtime_error "TravGridObjective received an unknown environment")) /\
  motionCost o s1 s2 =
  ([], Throw (runtime_error "TravGridObjective received an unknown environment")).
Proof.
  intros Hg He.
  assert (Hs : forall s, stateCost o s =
    ([], Throw (runtime_error "TravGridObjective received an unknown environment"))).
  { intros s. unfold stateCost. rewrite Hg, He. reflexivity. }
  split; [apply Hs|].
  unfold motionCost, StateCostIntegralObjective_motionCost. rewrite Hs. reflexivity.
Qed.

Lemma unknown_environment_witness :
  stateCost ex_unknown_env
    (SE2State (Double.of_int 3) (Double.of_int 4) Double.zero) =
  ([], Throw (runtime_error "TravGridObjective received an unknown environment")) /\
  motionCost ex_unknown_env
    (SE2State (Double.of_int 3) (Double.of_int 4) Double.zero)
    (SE2State (Double.of_int 20) (Double.of_int 4) Double.zero) =
  ([], Throw (runtime_error "TravGridObjective received an unknown environment")).
Proof.
  apply (unknown_environment ex_unknown_env
           (uniform_grid 10 10 Double.one Double.half)); reflexivity.
Defined.

(** X2: [motionCost] lets the errors of [stateCost] through unchanged.
    While no grid is bound it throws the no-grid error; when the cost of
    one end point throws and the cost of the other returns, it throws that
    same exception with that same log, whichever end point it is. *)
Theorem motionCost_propagates_errors o s1 s2 :
  (mpTravGrid o = None ->
   motionCost o s1 s2 =
   ([], Throw (runtime_error "TravGridObjective: No traversability grid available")))
  /\
  (forall l e c,
     stateCost o s1 = (l, Throw e) -> stateCost o s2 = ret c ->
     motionCost o s1 s2 = (l, Throw e)) /\
  (forall l e c,
     stateCost o s1 = ret c -> stateCost o s2 = (l, Throw e) ->
     motionCost o s1 s2 = (l, Throw e)).
Proof.
  unfold motionCost, StateCostIntegralObjective_motionCost.
  split; [|split].
  - intros Hg. unfold stateCost. rewrite Hg. reflexivity.
  - intros l e c H1 _. rewrite H1. reflexivity.
  - intros l e c H1 H2. rewrite H1, bind_ret, H2. reflexivity.
Qed.

Lemma motionCost_propagates_errors_witness :
  motionCost (TravGridObjective_new planar_distance (mConfig ex_footprint))
    (SherpaState (Double.of_int 1) (Double.of_int 1) Double.zero 0)
    (SherpaState (Double.of_int 6) (Double.of_int 1) Double.zero 1) =
  ([], Throw (runtime_error "TravGridObjective: No traversability grid available"))
  /\
  motionCost ex_footprint
    (SherpaState (Double.of_int 1) (Double.of_int 1) Double.zero 0)
    (SherpaState (Double.of_int 10) (Double.of_int 1) Double.zero 1) =
  ([LOG_WARN "Invalid state (%4.2f, %4.2f) has been passed and will be ignored"
             [Double.of_int 10; Double.of_int 1]],
   Throw (runtime_error "Invalid state received")).
Proof.
  split.
  - apply (proj1 (motionCost_propagates_errors _ _ _)). reflexivity.
  - apply (proj2 (proj2 (motionCost_propagates_errors _ _ _)) _ _ (Double.of_int 4));
      vm_compute; reflexivity.
Defined.

(** X3: in every environment other than the footprint-aware one
    [motionCost] is the base class's segment cost and nothing else: its
    [switch] falls to [default], so the footprint parameters of the
    configuration play no part. *)
Theorem motionCost_planar o s1 s2 :
  mEnvType (mConfig o) <> ENV_SHERPA ->
  motionCost o s1 s2 = StateCostIntegralObjective_motionCost o s1 s2.
Proof.
  intros He. unfold motionCost.
  destruct (mEnvType (mConfig o)); try contradiction; apply bind_ret_r.
Qed.

Lemma motionCost_planar_witness :
  motionCost ex_planar
    (SE2State (Double.of_int 1) (Double.of_int 1) Double.zero)
    (SE2State (Double.of_int 4) (Double.of_int 5) Double.one) =
  ret (trapezoid Double.one Double.one (Double.of_int 5)).
Proof.
  rewrite (motionCost_planar ex_planar); [vm_compute; reflexivity|discriminate].
Defined.

(** X4: [stateCost] logs nothing, except for the single warning that goes
    with the invalid-state exception, and that warning is only ever issued
    for a position that failed the bounds test, with that position as its
    arguments.  In particular a cost that is returned comes with an empty
    log. *)
Theorem stateCost_log o s :
  (fst (stateCost o s) = [] \/
   exists grid x y fc,
     mpTravGrid o = Some grid /\
     extract (mEnvType (mConfig o)) s = ret (x, y, fc) /\
     out_of_bounds grid x y = true /\
     stateCost o s =
     ([LOG_WARN "Invalid state (%4.2f, %4.2f) has been passed and will be ignored"
                [x; y]],
      Throw (runtime_error "Invalid state received"))) /\
  (forall l c, stateCost o s = (l, Ok c) -> l = []).
Proof.
  pose proof (stateCost_log_cases o s) as H. split; [exact H|].
  intros l c E. destruct H as [Hl|(grid & x & y & fc & _ & _ & _ & Hx)].
  - rewrite E in Hl. exact Hl.
  - rewrite E in Hx. discriminate.
Qed.

(** X5: [motionCost] logs at most one warning.  Its log is empty, or it
    is exactly the invalid-state warning of one of its two end points,
    whose extracted position failed the bounds test, and [motionCost]
    throws the invalid-state exception with it.  Whenever it returns a cost
    its log is empty.  (Which end point is reported when both are out of
    bounds is left open: it depends on the order in which the base cost
    evaluates the two state costs.) *)
Theorem motionCost_log o s1 s2 :
  (fst (motionCost o s1 s2) = [] \/
   exists s grid x y fc,
     (s = s1 \/ s = s2) /\
     mpTravGrid o = Some grid /\
     extract (mEnvType (mConfig o)) s = ret (x, y, fc) /\
     out_of_bounds grid x y = true /\
     motionCost o s1 s2 =
     ([LOG_WARN "Invalid state (%4.2f, %4.2f) has been passed and will be ignored"
                [x; y]],
      Throw (runtime_error "Invalid state received"))) /\
  (forall l c, motionCost o s1 s2 = (l, Ok c) -> l = []).
Proof.
  assert (H : fst (motionCost o s1 s2) = [] \/
    exists s grid x y fc,
      (s = s1 \/ s = s2) /\
      mpTravGrid o = Some grid /\
      extract (mEnvType (mConfig o)) s = ret (x, y, fc) /\
      out_of_bounds grid x y = true /\
      motionCost o s1 s2 =
      ([LOG_WARN "Invalid state (%4.2f, %4.2f) has been passed and will be ignored"
                 [x; y]],
       Throw (runtime_error "Invalid state received"))).
  { unfold motionCost, StateCostIntegralObjective_motionCost.
    destruct (stateCost_log_cases o s1)
      as [H1|(g1 & x & y & fc & Hg & He & Hout & H1)].
    - destruct (stateCost o s1) as [l1 [c1| |]] eqn:E1; simpl in H1; subst l1;
        [|left; reflexivity|left; reflexivity].
      change (@nil log_entry, @Ok double c1) with (ret c1). rewrite bind_ret.
      destruct (stateCost_log_cases o s2)
        as [H2|(g2 & x & y & fc & Hg & He & Hout & H2)].
      + destruct (stateCost o s2) as [l2 [c2| |]] eqn:E2; simpl in H2; subst l2;
          [|left; reflexivity|left; reflexivity].
        change (@nil log_entry, @Ok double c2) with (ret c2). rewrite !bind_ret.
        left. destruct (mEnvType (mConfig o)); try reflexivity.
        destruct s1, s2; try reflexivity. simpl as_Sherpa. rewrite !bind_ret.
        destruct (mpTravGrid o); try reflexivity. simpl deref. rewrite bind_ret.
        destruct (Double.gt _ _); reflexivity.
      + right. exists s2, g2, x, y, fc. rewrite H2. auto 10.
    - right. exists s1, g1, x, y, fc. rewrite H1. auto 10. }
  split; [exact H|].
  intros l c E. destruct H as [Hl|(s & g & x & y & fc & _ & _ & _ & _ & Hx)].
  - rewrite E in Hl. exact Hl.
  - rewrite E in Hx. discriminate.
Qed.

(** X6: the null test of [stateCost] covers the grid pointer only.  With a
    grid bound and a null data pointer, a position that passes the bounds
    test makes [stateCost] dereference the null pointer (undefined
    behaviour, no exception), while a position that fails it is still
    reported with the warning and the invalid-state exception. *)
Theorem stateCost_null_data o grid s x y fc :
  mpTravGrid o = Some grid -> mpTravData o = None ->
  extract (mEnvType (mConfig o)) s = ret (x, y, fc) ->
  (out_of_bounds grid x y = false -> stateCost o s = ([], Undefined)) /\
  (out_of_bounds grid x y = true ->
   stateCost o s =
   ([LOG_WARN "Invalid state (%4.2f, %4.2f) has been passed and will be ignored"
              [x; y]],
    Throw (runtime_error "Invalid state received"))).
Proof.
  intros Hg Hd He. unfold stateCost. rewrite Hg, He, bind_ret, Hd.
  split; intros ->; reflexivity.
Qed.

Lemma stateCost_null_data_witness :
  stateCost ex_null_data
    (SE2State (Double.of_int 3) (Double.of_int 4) Double.zero) = ([], Undefined).
Proof.
  apply (stateCost_null_data ex_null_data
           (uniform_grid 10 10 Double.one Double.half) _
           (Double.of_int 3) (Double.of_int 4) 0); reflexivity.
Defined.



(** ** The cell a state reads *)

Lemma shiftl_le_value m e :
  0 <= Z.shiftl (Z.pos m) e /\
  (IZR (Z.shiftl (Z.pos m) e) <= IZR (Z.pos m) * bpow e)%R.
Proof.
  split; [apply Z.shiftl_nonneg; lia|].
  destruct (Z_le_gt_dec 0 e) as [He|He].
  - rewrite Z.shiftl_mul_pow2, mult_IZR, <- bpow_IZR by lia. lra.
  - rewrite Z.shiftl_div_pow2 by lia.
    assert (Hk : 0 < 2 ^ (- e)) by (apply Z.pow_pos_nonneg; lia).
    pose proof (Z.mul_div_le (Z.pos m) (2 ^ (- e)) Hk) as Hd.
    apply IZR_le in Hd. rewrite mult_IZR, <- bpow_IZR in Hd by lia.
    pose proof (bpow_gt_0 (- e)) as Hp. pose proof (bpow_gt_0 e) as Hp'.
    pose proof (bpow_opp_r e) as Ho.
    set (q := IZR (Z.pos m / 2 ^ (- e))) in *.
    replace q with (q * (bpow e * bpow (- e)))%R by (rewrite Ho; ring).
    replace (q * (bpow e * bpow (- e)))%R with ((bpow (- e) * q) * bpow e)%R by ring.
    apply Rmult_le_compat_r; lra.
Qed.

(** A failed [x >= w] means [x < w] as real numbers. *)
Lemma PosFinite_lt_B2R x w :
  PosFinite x -> PosFinite w -> Double.ge x w = false -> (B2R x < B2R w)%R.
Proof.
  intros Hx Hw Hge. unfold Double.ge in Hge.
  assert (Hord : ord x < ord w).
  { destruct (Z_lt_le_dec (ord x) (ord w)) as [L|L]; [exact L|].
    rewrite (ord_le_SFleb w x) in Hge; [discriminate| | |exact L];
      apply PosFinite_Nonneg; assumption. }
  assert (Hle : SFleb x w = true)
    by (apply ord_le_SFleb; [apply PosFinite_Nonneg, Hx|apply PosFinite_Nonneg, Hw|lia]).
  pose proof (SFleb_B2R _ _ Hx Hw Hle) as HR.
  destruct HR as [HR|HR]; [exact HR|exfalso].
  assert (E : x = w).
  { destruct w as [| | |[] mw ew]; simpl in Hw; try tauto; destruct Hw as [Hs Hb];
      try discriminate.
    apply (Rounded_representable (B2R x) x mw ew (Rounded_PosFinite _ Hx) Hb).
    rewrite HR. apply B2R_finite. }
  subst. lia.
Qed.

Lemma index_in_range x w :
  0 <= w < 2 ^ 53 ->
  Double.valid x = true -> Double.is_nan x = false ->
  Double.lt x (Double.of_int 0) = false ->
  Double.ge x (Double.of_int w) = false ->
  exists i, Double.to_index x = Some i /\ 0 <= i < w.
Proof.
  intros Hw Hv Hn Hlt Hge.
  assert (Hw0 : w <> 0).
  { intros ->. destruct x as [[]|[]| |[] m e]; discriminate. }
  destruct (of_int_exact w) as [Pw Ew]; [lia|].
  destruct x as [s|s| |s m e].
  - exists 0. split; [reflexivity|lia].
  - destruct s; [discriminate Hlt|].
    pose proof (le_nonneg_inf _ (PosFinite_Nonneg _ Pw)) as Hinf.
    unfold Double.le in Hinf. unfold Double.ge in Hge. congruence.
  - discriminate.
  - destruct s; [discriminate Hlt|].
    assert (Px : PosFinite (S754_finite false m e)) by (split; [reflexivity|exact Hv]).
    pose proof (PosFinite_lt_B2R _ _ Px Pw Hge) as HR.
    rewrite Ew, B2R_finite in HR.
    destruct (shiftl_le_value m e) as [H0 Hle].
    exists (Z.shiftl (Z.pos m) e). split; [reflexivity|].
    split; [exact H0|]. apply lt_IZR. lra.
Qed.

(** X8: the bounds test keeps the array read inside the array.  For a grid
    of at most [2 ^ 53] cells a side, every position of well-formed doubles
    that are not NaN and that passes the test converts to a column index in
    [0, getCellSizeX) and a row index in [0, getCellSizeY). *)
Theorem cell_index_in_range grid x y :
  0 <= getCellSizeX grid < 2 ^ 53 -> 0 <= getCellSizeY grid < 2 ^ 53 ->
  Double.valid x = true -> Double.valid y = true ->
  Double.is_nan x = false -> Double.is_nan y = false ->
  out_of_bounds grid x y = false ->
  exists ix iy,
    Double.to_index x = Some ix /\ Double.to_index y = Some iy /\
    0 <= ix < getCellSizeX grid /\ 0 <= iy < getCellSizeY grid.
Proof.
  intros Hw Hh Vx Vy Nx Ny Hout. unfold out_of_bounds in Hout.
  rewrite !orb_false_iff in Hout. destruct Hout as [[[Hx0 Hxw] Hy0] Hyh].
  destruct (index_in_range x _ Hw Vx Nx Hx0 Hxw) as (ix & Ex & Rx).
  destruct (index_in_range y _ Hh Vy Ny Hy0 Hyh) as (iy & Ey & Ry).
  exists ix, iy. auto.
Qed.

Lemma cell_index_in_range_witness :
  exists ix iy,
    Double.to_index three_and_half = Some ix /\
    Double.to_index nine_and_three_quarters = Some iy /\
    0 <= ix < 10 /\ 0 <= iy < 10.
Proof.
  apply (cell_index_in_range (uniform_grid 10 10 Double.one Double.half));
    try reflexivity; simpl; lia.
Defined.

(** X9: the cost of a state is the cost of the cell its position truncates
    to.  Two states inside the grid whose coordinates truncate to the same
    indices and whose footprint classes agree have the same [stateCost],
    whatever their exact positions and headings. *)
Theorem stateCost_same_cell o grid data s s' x y x' y' fc :
  mpTravGrid o = Some grid -> mpTravData o = Some data ->
  extract (mEnvType (mConfig o)) s = ret (x, y, fc) ->
  extract (mEnvType (mConfig o)) s' = ret (x', y', fc) ->
  in_bounds grid x y = true -> in_bounds grid x' y' = true ->
  Double.to_index x = Double.to_index x' ->
  Double.to_index y = Double.to_index y' ->
  stateCost o s = stateCost o s'.
Proof.
  intros Hg Hd He He' Hin Hin' Hx Hy.
  destruct (in_bounds_check _ _ _ Hin) as (_ & ix & iy & Hix & Hiy).
  pose proof (cell_driveability_at grid data x y ix iy Hix Hiy) as Hc.
  rewrite Hx in Hix. rewrite Hy in Hiy.
  pose proof (cell_driveability_at grid data x' y' ix iy Hix Hiy) as Hc'.
  rewrite (stateCost_of_cell o grid data Hg Hd s x y fc _ He Hin Hc).
  rewrite (stateCost_of_cell o grid data Hg Hd s' x' y' fc _ He' Hin' Hc').
  reflexivity.
Qed.

Lemma stateCost_same_cell_witness :
  stateCost ex_footprint
    (SherpaState (Double.of_int 3) (Double.of_int 4) Double.zero 1) =
  stateCost ex_footprint
    (SherpaState three_and_half four_and_quarter Double.one 1).
Proof.
  apply (stateCost_same_cell ex_footprint
           (uniform_grid 10 10 Double.one Double.half) uniform_data _ _
           (Double.of_int 3) (Double.of_int 4) three_and_half four_and_quarter 1);
    reflexivity.
Defined.

(** ** Cost against the footprint class *)

Lemma of_int_mono k k' :
  0 < k <= k' -> Double.le (Double.of_int k) (Double.of_int k') = true.
Proof.
  intros H. apply (Rounded_mono (IZR k) (IZR k')).
  - apply IZR_le. lia.
  - apply of_int_correct. lia.
  - apply of_int_correct. lia.
Qed.

Lemma footprint_ratio_mono cfg fc fc' :
  0 <= fc <= fc' -> fc' <= mNumFootprintClasses cfg ->
  mNumFootprintClasses cfg < 2 ^ 31 - 1 ->
  Double.le (footprint_ratio cfg fc) (footprint_ratio cfg fc') = true.
Proof.
  intros Hfc Hfc' HN.
  assert (H231 : 2 ^ 31 = 2147483648) by reflexivity.
  assert (H253 : 2 ^ 53 = 9007199254740992) by reflexivity.
  rewrite !footprint_ratio_eq by lia.
  destruct (of_int_exact (mNumFootprintClasses cfg + 1)) as [PN _]; [lia|].
  destruct (of_int_exact (fc + 1)) as [P1 _]; [lia|].
  destruct (of_int_exact (fc' + 1)) as [P2 _]; [lia|].
  apply div_mono_num; try assumption; try (apply PosFinite_Nonneg; assumption).
  apply of_int_mono. lia.
Qed.

(** X10: in the footprint-aware variant a larger footprint class never
    costs more.  On a cell with positive finite drivability, with positive
    finite scale and speed, the state cost at class [fc'] is at most the
    state cost at class [fc] whenever
    [0 <= fc <= fc' <= mNumFootprintClasses]. *)
Theorem stateCost_anti_footprint o grid data x y w d fc fc' :
  mEnvType (mConfig o) = ENV_SHERPA ->
  mpTravGrid o = Some grid -> mpTravData o = Some data ->
  in_bounds grid x y = true ->
  cell_driveability grid data x y = ret d ->
  Double.pos_finite (getScaleX grid) = true ->
  Double.pos_finite (mSpeed (mMobility (mConfig o))) = true ->
  Double.pos_finite d = true ->
  mNumFootprintClasses (mConfig o) < 2 ^ 31 - 1 ->
  0 <= fc <= fc' -> fc' <= mNumFootprintClasses (mConfig o) ->
  exists c c',
    stateCost o (SherpaState x y w fc) = ret c /\
    stateCost o (SherpaState x y w fc') = ret c' /\
    Double.le c' c = true.
Proof.
  intros Henv Hg Hd Hin Hc Ps Pv Pd HN Hfc Hfc'.
  apply pos_finite_spec in Ps, Pv, Pd.
  assert (H231 : 2 ^ 31 = 2147483648) by reflexivity.
  pose proof (traversal_time_nonneg grid (mConfig o) d Ps Pv Pd) as Ht.
  assert (Hcost : forall k, 0 <= k <= mNumFootprintClasses (mConfig o) ->
            stateCost o (SherpaState x y w k) =
            ret (Double.div (traversal_time grid (mConfig o) d)
                            (footprint_ratio (mConfig o) k))).
  { intros k Hk.
    rewrite (stateCost_of_cell o grid data Hg Hd _ x y (to_int32 k) d);
      try assumption; [|rewrite Henv; reflexivity].
    rewrite cell_cost_pos, Henv, to_int32_small by (assumption || lia).
    reflexivity. }
  do 2 eexists. split; [apply Hcost; lia|]. split; [apply Hcost; lia|].
  destruct (footprint_ratio_range (mConfig o) fc ltac:(lia) HN) as [P1 _].
  destruct (footprint_ratio_range (mConfig o) fc' ltac:(lia) HN) as [P2 _].
  apply div_anti_den; try assumption.
  apply footprint_ratio_mono; assumption.
Qed.

Lemma stateCost_anti_footprint_witness :
  exists c c',
    stateCost ex_footprint
      (SherpaState (Double.of_int 3) (Double.of_int 4) Double.zero 1) = ret c /\
    stateCost ex_footprint
      (SherpaState (Double.of_int 3) (Double.of_int 4) Double.zero 2) = ret c' /\
    Double.le c' c = true.
Proof.
  apply (stateCost_anti_footprint ex_footprint
           (uniform_grid 10 10 Double.one Double.half) uniform_data
           (Double.of_int 3) (Double.of_int 4) Double.zero Double.half 1 2);
    try reflexivity; simpl; lia.
Defined.

(** ** Symmetry of the segment cost *)

Lemma double_add_comm x y : Double.add x y = Double.add y x.
Proof.
  destruct x as [sx|sx| |sx mx ex], y as [sy|sy| |sy my ey];
    try reflexivity; try (destruct sx, sy; reflexivity).
  unfold Double.add, SFadd. rewrite (Z.min_comm ey ex), Z.add_comm. reflexivity.
Qed.

Lemma binary_round_aux_opp s m e l :
  binary_round_aux Double.prec Double.emax (negb s) m e l =
  SFopp (binary_round_aux Double.prec Double.emax s m e l).
Proof.
  unfold binary_round_aux.
  destruct (shr_fexp Double.prec Double.emax m e l) as [mrs' e'].
  destruct (shr_fexp Double.prec Double.emax _ e' loc_Exact) as [mrs'' e''].
  destruct (shr_m mrs''); [reflexivity| |reflexivity].
  destruct (e'' <=? Double.emax - Double.prec); reflexivity.
Qed.

Lemma binary_round_opp m e :
  binary_round Double.prec Double.emax true m e =
  SFopp (binary_round Double.prec Double.emax false m e).
Proof.
  unfold binary_round. destruct (shl_align m e _) as [mz ez].
  apply (binary_round_aux_opp false).
Qed.

Lemma SFopp_involutive x : SFopp (SFopp x) = x.
Proof.
  destruct x as [s|s| |s m e]; simpl; rewrite ?negb_involutive; reflexivity.
Qed.

Lemma binary_normalize_opp m e :
  binary_normalize Double.prec Double.emax (- m) e false =
  SFopp (binary_normalize Double.prec Double.emax m e false) \/
  binary_normalize Double.prec Double.emax (- m) e false =
  binary_normalize Double.prec Double.emax m e false.
Proof.
  destruct m as [|p|p]; simpl.
  - right. reflexivity.
  - left. apply binary_round_opp.
  - left. rewrite binary_round_opp, SFopp_involutive. reflexivity.
Qed.

(** Swapping the operands of a subtraction negates the difference, or
    leaves it (the difference of equal finite operands is [+0] both
    ways). *)
Lemma sub_swap a b :
  Double.sub b a = SFopp (Double.sub a b) \/ Double.sub b a = Double.sub a b.
Proof.
  destruct a as [sa|sa| |sa ma ea], b as [sb|sb| |sb mb eb];
    try (left; reflexivity); try (right; reflexivity);
    try (destruct sa, sb; (left; reflexivity) || (right; reflexivity)).
  unfold Double.sub, SFsub. rewrite (Z.min_comm eb ea).
  set (ez := Z.min ea eb).
  set (A := cond_Zopp sa _). set (B := cond_Zopp sb _).
  replace (B - A) with (- (A - B)) by lia.
  apply binary_normalize_opp.
Qed.

Lemma mul_opp_opp x : Double.mul (SFopp x) (SFopp x) = Double.mul x x.
Proof. destruct x as [[]|[]| |[] m e]; reflexivity. Qed.

Lemma sub_sq_swap a b :
  Double.mul (Double.sub a b) (Double.sub a b) =
  Double.mul (Double.sub b a) (Double.sub b a).
Proof.
  destruct (sub_swap a b) as [H|H]; rewrite H; [|reflexivity].
  symmetry. apply mul_opp_opp.
Qed.

Lemma norm2d_sym x1 y1 x2 y2 : norm2d x1 y1 x2 y2 = norm2d x2 y2 x1 y1.
Proof.
  unfold norm2d. cbv zeta.
  rewrite (sub_sq_swap x1 x2), (sub_sq_swap y1 y2). reflexivity.
Qed.

Lemma abs_to_int32_swap c1 c2 :
  Z.abs (to_int32 (c1 - c2)) = Z.abs (to_int32 (c2 - c1)).
Proof.
  unfold to_int32. change (2 ^ 31) with 2147483648. change (2 ^ 32) with 4294967296.
  pose proof (Z.div_mod (c1 - c2 + 2147483648) 4294967296 ltac:(lia)) as E1.
  pose proof (Z.mod_pos_bound (c1 - c2 + 2147483648) 4294967296 ltac:(lia)) as B1.
  pose proof (Z.div_mod (c2 - c1 + 2147483648) 4294967296 ltac:(lia)) as E2.
  pose proof (Z.mod_pos_bound (c2 - c1 + 2147483648) 4294967296 ltac:(lia)) as B2.
  lia.
Qed.

Lemma fp_time_sec_sym cfg c1 c2 : fp_time_sec cfg c1 c2 = fp_time_sec cfg c2 c1.
Proof. unfold fp_time_sec, abs_int. rewrite abs_to_int32_swap. reflexivity. Qed.

Lemma mov_time_sec_sym grid cfg x1 y1 x2 y2 :
  mov_time_sec grid cfg x1 y1 x2 y2 = mov_time_sec grid cfg x2 y2 x1 y1.
Proof. unfold mov_time_sec. rewrite norm2d_sym. reflexivity. Qed.

Lemma trapezoid_sym c1 c2 d : trapezoid c1 c2 d = trapezoid c2 c1 d.
Proof. unfold trapezoid. rewrite double_add_comm. reflexivity. Qed.

(** X11: [motionCost] does not depend on the direction of travel.  When
    the costs of both end points are returned and the state-space distance
    is symmetric on them, the cost from [s1] to [s2] is the cost from [s2]
    to [s1], bit for bit, in every environment: the mean of the state
    costs, the footprint time, the penalty and the movement time are all
    symmetric. *)
Theorem motionCost_symmetric o s1 s2 c1 c2 :
  stateCost o s1 = ret c1 -> stateCost o s2 = ret c2 ->
  si_distance o s1 s2 = si_distance o s2 s1 ->
  motionCost o s1 s2 = motionCost o s2 s1.
Proof.
  intros H1 H2 Hd.
  unfold motionCost, StateCostIntegralObjective_motionCost.
  rewrite H1, H2, !bind_ret, Hd, (trapezoid_sym c2 c1).
  destruct (mEnvType (mConfig o)); try reflexivity.
  destruct s1 as [v1|x1 y1 w1|x1 y1 w1 k1], s2 as [v2|x2 y2 w2|x2 y2 w2 k2];
    try reflexivity.
  simpl as_Sherpa. rewrite !bind_ret.
  rewrite (fp_time_sec_sym (mConfig o) k2 k1).
  destruct (mpTravGrid o) as [grid|]; [|reflexivity].
  simpl deref. rewrite !bind_ret.
  rewrite (mov_time_sec_sym grid (mConfig o) x2 y2 x1 y1). reflexivity.
Qed.

Lemma motionCost_symmetric_witness :
  motionCost ex_footprint
    (SherpaState (Double.of_int 1) (Double.of_int 1) Double.zero 0)
    (SherpaState (Double.of_int 6) (Double.of_int 1) Double.zero 1) =
  motionCost ex_footprint
    (SherpaState (Double.of_int 6) (Double.of_int 1) Double.zero 1)
    (SherpaState (Double.of_int 1) (Double.of_int 1) Double.zero 0).
Proof.
  apply (motionCost_symmetric ex_footprint _ _ (Double.of_int 4) (Double.of_int 2));
    vm_compute; reflexivity.
Defined.

(** ** The time to adapt the footprint *)

Lemma B2R_one : B2R Double.one = 1%R.
Proof.
  unfold Double.one. rewrite B2R_finite.
  change (Z.pos 4503599627370496) with (2 ^ 52).
  rewrite <- (bpow_IZR 52) by lia. rewrite <- bpow_add. apply bpow_0.
Qed.

Lemma PosFinite_one : PosFinite Double.one.
Proof. split; reflexivity. Qed.

Lemma mul_one_l t : NonnegValid t -> Double.mul Double.one t = t.
Proof.
  intros Ht. destruct (NonnegValid_cases _ Ht) as [->|[->|Hp]]; try reflexivity.
  apply (Rounded_unique false (B2R t)).
  - replace (B2R t) with (B2R Double.one * B2R t)%R at 1
      by (rewrite B2R_one; ring).
    apply SFmul_correct; [apply PosFinite_one|exact Hp].
  - apply Rounded_PosFinite, Hp.
Qed.

Lemma mul_range x y a b c d :
  PosFinite x -> PosFinite y ->
  (bpow a <= B2R x <= bpow b)%R -> (bpow c <= B2R y <= bpow d)%R ->
  -1022 <= a + c -> b + d <= 1023 ->
  PosFinite (Double.mul x y) /\
  (bpow (a + c) <= B2R (Double.mul x y) <= bpow (b + d))%R.
Proof.
  intros Hx Hy [Hxa Hxb] [Hyc Hyd] Hlo Hhi.
  apply (Rounded_range (B2R x * B2R y)); try assumption.
  - apply SFmul_correct; assumption.
  - pose proof (bpow_gt_0 a). pose proof (bpow_gt_0 c).
    rewrite !bpow_add. split.
    + apply Rmult_le_compat; lra.
    + apply Rmult_le_compat; lra.
Qed.

Lemma mul_mono_l x x' t :
  PosFinite x -> PosFinite x' -> PosFinite t ->
  Double.le x x' = true ->
  Double.le (Double.mul x t) (Double.mul x' t) = true.
Proof.
  intros Hx Hx' Ht Hle.
  apply (Rounded_mono (B2R x * B2R t) (B2R x' * B2R t)).
  - pose proof (SFleb_B2R _ _ Hx Hx' Hle). pose proof (B2R_pos _ Ht). nra.
  - apply SFmul_correct; assumption.
  - apply SFmul_correct; assumption.
Qed.

Lemma mul_zero_l t :
  PosFinite t -> Double.mul (S754_zero false) t = S754_zero false.
Proof.
  destruct t as [| | |[] m e]; simpl; intros H; try tauto; destruct H;
    try discriminate; reflexivity.
Qed.

Lemma mul_nonneg x t : PosFinite x -> PosFinite t -> NonnegValid (Double.mul x t).
Proof. intros Hx Ht. apply (Rounded_valid _ _ (SFmul_correct _ _ Hx Ht)). Qed.

Lemma IZR_int31 k : 0 < k < 2 ^ 31 -> (bpow 0 <= IZR k <= bpow 31)%R.
Proof.
  intros Hk. rewrite bpow_0, (bpow_IZR 31) by lia. split.
  - apply IZR_le. lia.
  - apply IZR_le. lia.
Qed.

Lemma of_int_int31 k :
  0 < k < 2 ^ 31 ->
  PosFinite (Double.of_int k) /\ (bpow 0 <= B2R (Double.of_int k) <= bpow 31)%R.
Proof.
  intros Hk.
  destruct (of_int_exact k) as [Hp He]; [lia|].
  split; [exact Hp|]. rewrite He. apply IZR_int31, Hk.
Qed.

(** The quotient of a class distance and the number of classes. *)
Lemma class_quotient k N :
  0 < k < 2 ^ 31 -> 0 < N < 2 ^ 31 ->
  PosFinite (Double.div (Double.of_int k) (Double.of_int N)) /\
  (bpow (-31) <= B2R (Double.div (Double.of_int k) (Double.of_int N)) <= bpow 31)%R.
Proof.
  intros Hk HN.
  destruct (of_int_int31 k Hk) as [Pk Bk], (of_int_int31 N HN) as [PN BN].
  exact (div_range _ _ 0 31 0 31 Pk PN Bk BN ltac:(lia) ltac:(lia)).
Qed.

Lemma class_quotient_zero N :
  0 < N < 2 ^ 31 ->
  Double.div (Double.of_int 0) (Double.of_int N) = S754_zero false.
Proof.
  intros HN. apply div_zero_l. apply of_int_int31, HN.
Qed.

Lemma fp_time_zero cfg c1 c2 :
  0 < mNumFootprintClasses cfg < 2 ^ 31 ->
  PosFinite (mTimeToAdaptFootprint cfg) ->
  0 <= c1 < 2 ^ 31 -> 0 <= c2 < 2 ^ 31 -> c1 = c2 ->
  fp_time_sec cfg c1 c2 = S754_zero false.
Proof.
  intros HN HT H1 H2 ->. rewrite fp_time_sec_formula by assumption.
  rewrite Z.sub_diag. change (Z.abs 0) with 0.
  rewrite class_quotient_zero by assumption. apply mul_zero_l, HT.
Qed.

Lemma fp_time_nonneg cfg c1 c2 :
  0 < mNumFootprintClasses cfg < 2 ^ 31 ->
  PosFinite (mTimeToAdaptFootprint cfg) ->
  0 <= c1 < 2 ^ 31 -> 0 <= c2 < 2 ^ 31 ->
  NonnegValid (fp_time_sec cfg c1 c2).
Proof.
  intros HN HT H1 H2. destruct (Z.eq_dec c1 c2) as [E|E].
  - rewrite fp_time_zero by assumption. reflexivity.
  - rewrite fp_time_sec_formula by assumption.
    apply mul_nonneg; [|exact HT]. apply class_quotient; [lia|exact HN].
Qed.

(** Between different classes the footprint time is positive, unless the
    adaptation time is small or large enough for the product to leave the
    range of the doubles. *)
Lemma fp_time_gt_zero cfg c1 c2 :
  0 < mNumFootprintClasses cfg < 2 ^ 31 ->
  PosFinite (mTimeToAdaptFootprint cfg) ->
  within (-990) 990 (mTimeToAdaptFootprint cfg) = true ->
  0 <= c1 < 2 ^ 31 -> 0 <= c2 < 2 ^ 31 -> c1 <> c2 ->
  Double.gt (fp_time_sec cfg c1 c2) Double.zero = true.
Proof.
  intros HN HT HTr H1 H2 Hne. rewrite fp_time_sec_formula by assumption.
  destruct (class_quotient (Z.abs (c1 - c2)) _ ltac:(lia) HN) as [Pq Bq].
  pose proof (within_B2R (-990) 990 _ ltac:(lia) ltac:(lia) ltac:(lia) HT HTr) as BT.
  destruct (mul_range _ _ (-31) 31 (-990) 990 Pq HT Bq BT ltac:(lia) ltac:(lia))
    as [Pm _].
  apply (PosFinite_gt_zero _ Pm).
Qed.

(** X12: a change over the whole range of classes takes exactly the
    configured adaptation time.  When the two classes are
    [mNumFootprintClasses] apart, [fp_time_sec] is
    [mTimeToAdaptFootprint] itself, with no rounding error, for every
    non-negative adaptation time. *)
Theorem fp_time_full_range cfg c1 c2 :
  0 < mNumFootprintClasses cfg < 2 ^ 31 ->
  Double.nonneg (mTimeToAdaptFootprint cfg) = true ->
  0 <= c1 < 2 ^ 31 -> 0 <= c2 < 2 ^ 31 ->
  Z.abs (c1 - c2) = mNumFootprintClasses cfg ->
  fp_time_sec cfg c1 c2 = mTimeToAdaptFootprint cfg.
Proof.
  intros HN HT H1 H2 Hk. apply nonneg_spec in HT.
  rewrite fp_time_sec_formula, Hk by assumption.
  rewrite div_self by (apply of_int_int31, HN).
  apply mul_one_l, HT.
Qed.

Lemma fp_time_full_range_witness :
  fp_time_sec (mConfig ex_footprint) 3 0 = Double.of_int 10.
Proof.
  apply (fp_time_full_range (mConfig ex_footprint) 3 0);
    try reflexivity; simpl; lia.
Defined.

(** X13: the footprint time grows with the class distance.  For a positive
    finite adaptation time, a pair of classes that is at least as far
    apart as another pair takes at least as long to adapt. *)
Theorem fp_time_monotone cfg c1 c2 c1' c2' :
  0 < mNumFootprintClasses cfg < 2 ^ 31 ->
  Double.pos_finite (mTimeToAdaptFootprint cfg) = true ->
  0 <= c1 < 2 ^ 31 -> 0 <= c2 < 2 ^ 31 ->
  0 <= c1' < 2 ^ 31 -> 0 <= c2' < 2 ^ 31 ->
  Z.abs (c1 - c2) <= Z.abs (c1' - c2') ->
  Double.le (fp_time_sec cfg c1 c2) (fp_time_sec cfg c1' c2') = true.
Proof.
  intros HN HT H1 H2 H1' H2' Hle. apply pos_finite_spec in HT.
  destruct (Z.eq_dec c1 c2) as [E|E].
  - rewrite (fp_time_zero cfg c1 c2) by assumption.
    apply le_zero_nonneg, fp_time_nonneg; assumption.
  - rewrite !fp_time_sec_formula by assumption.
    assert (Hk : 0 < Z.abs (c1 - c2) < 2 ^ 31) by lia.
    assert (Hk' : 0 < Z.abs (c1' - c2') < 2 ^ 31) by lia.
    destruct (of_int_int31 _ HN) as [PN _].
    apply mul_mono_l; try assumption.
    + apply class_quotient; assumption.
    + apply class_quotient; assumption.
    + apply div_mono_num; try assumption.
      * apply PosFinite_Nonneg, of_int_int31, Hk.
      * apply PosFinite_Nonneg, of_int_int31, Hk'.
      * apply of_int_mono. lia.
Qed.

Lemma fp_time_monotone_witness :
  Double.le (fp_time_sec (mConfig ex_footprint) 1 2)
            (fp_time_sec (mConfig ex_footprint) 3 1) = true.
Proof.
  apply (fp_time_monotone (mConfig ex_footprint) 1 2 3 1);
    try reflexivity; simpl; lia.
Defined.

(** ** The cost of a change of footprint *)

(** X14: every change of footprint class is charged the penalty.  In the
    footprint-aware variant, between states inside the grid whose classes
    differ, with an adaptation time in [2^-990, 2^990], the footprint time
    is positive, and the cost is +infinity when it exceeds the movement
    time and otherwise the base cost plus the footprint time plus
    [mAdaptFootprintPenalty]. *)
Theorem footprint_change_penalised o grid data x1 y1 w1 c1 x2 y2 w2 c2 :
  mpTravGrid o = Some grid -> mpTravData o = Some data ->
  mEnvType (mConfig o) = ENV_SHERPA ->
  in_bounds grid x1 y1 = true -> in_bounds grid x2 y2 = true ->
  0 < mNumFootprintClasses (mConfig o) < 2 ^ 31 ->
  0 <= c1 < 2 ^ 31 -> 0 <= c2 < 2 ^ 31 -> c1 <> c2 ->
  Double.pos_finite (mTimeToAdaptFootprint (mConfig o)) = true ->
  within (-990) 990 (mTimeToAdaptFootprint (mConfig o)) = true ->
  let s1 := SherpaState x1 y1 w1 c1 in
  let s2 := SherpaState x2 y2 w2 c2 in
  let fp_time := fp_time_sec (mConfig o) c1 c2 in
  let mov_time := mov_time_sec grid (mConfig o) x1 y1 x2 y2 in
  Double.gt fp_time Double.zero = true /\
  exists base,
    StateCostIntegralObjective_motionCost o s1 s2 = ret base /\
    motionCost o s1 s2 =
    ret (if Double.gt fp_time mov_time then Double.infinity
         else Double.add (Double.add base fp_time)
                         (mAdaptFootprintPenalty (mConfig o))).
Proof.
  intros Hg Hd He Hin1 Hin2 HN H1 H2 Hne HT HTr s1 s2 fp_time mov_time.
  apply pos_finite_spec in HT.
  pose proof (fp_time_gt_zero (mConfig o) c1 c2 HN HT HTr H1 H2 Hne) as Hpos.
  split; [exact Hpos|].
  destruct (motionCost_sherpa o grid data Hg Hd x1 y1 w1 c1 x2 y2 w2 c2 He Hin1 Hin2)
    as (base & Hb & Hm).
  exists base. split; [exact Hb|].
  fold s1 s2 in Hm. rewrite Hm. fold fp_time mov_time.
  unfold with_footprint_change.
  change (Double.of_int 0) with Double.zero. fold fp_time in Hpos.
  rewrite Hpos. reflexivity.
Qed.

Lemma footprint_change_penalised_witness :
  let s1 := SherpaState (Double.of_int 1) (Double.of_int 1) Double.zero 0 in
  let s2 := SherpaState (Double.of_int 9) (Double.of_int 1) Double.zero 1 in
  let fp_time := fp_time_sec (mConfig ex_footprint) 0 1 in
  Double.gt fp_time Double.zero = true /\
  exists base,
    StateCostIntegralObjective_motionCost ex_footprint s1 s2 = ret base /\
    motionCost ex_footprint s1 s2 =
    ret (Double.add (Double.add base fp_time) Double.one).
Proof.
  apply (footprint_change_penalised ex_footprint
           (uniform_grid 10 10 Double.one Double.half) uniform_data
           (Double.of_int 1) (Double.of_int 1) Double.zero 0
           (Double.of_int 9) (Double.of_int 1) Double.zero 1);
    try reflexivity; simpl; lia.
Defined.

Lemma add_nonneg a b :
  NonnegValid a -> NonnegValid b ->
  NonnegValid (Double.add a b) /\ Double.le a (Double.add a b) = true.
Proof.
  intros Ha Hb.
  destruct (NonnegValid_cases _ Ha) as [->|[->|Pa]].
  - destruct (NonnegValid_cases _ Hb) as [->|[->|Pb]].
    + split; reflexivity.
    + split; reflexivity.
    + assert (E : Double.add (S754_zero false) b = b)
        by (destruct b as [| | |[] m e]; simpl in Pb; try tauto; reflexivity).
      rewrite E. split; [exact Hb|apply le_zero_nonneg, Hb].
  - assert (E : Double.add (S754_infinity false) b = S754_infinity false).
    { destruct (NonnegValid_cases _ Hb) as [->|[->|Pb]]; try reflexivity.
      destruct b as [| | |[] m e]; simpl in Pb; try tauto; reflexivity. }
    rewrite E. split; reflexivity.
  - destruct (NonnegValid_cases _ Hb) as [->|[->|Pb]].
    + assert (E : Double.add a (S754_zero false) = a)
        by (destruct a as [| | |[] m e]; simpl in Pa; try tauto; reflexivity).
      rewrite E. split; [exact Ha|apply le_refl_nonneg, Ha].
    + assert (E : Double.add a (S754_infinity false) = S754_infinity false)
        by (destruct a as [| | |[] m e]; simpl in Pa; try tauto; reflexivity).
      rewrite E. split; [reflexivity|apply le_nonneg_inf, Ha].
    + pose proof (SFadd_correct _ _ Pa Pb) as Hr. split.
      * apply (Rounded_valid _ _ Hr).
      * apply (Rounded_mono (B2R a) (B2R a + B2R b)).
        -- pose proof (B2R_pos _ Pb). lra.
        -- apply Rounded_PosFinite, Pa.
        -- exact Hr.
Qed.

Lemma le_trans_nonneg a b c :
  NonnegValid a -> NonnegValid b -> NonnegValid c ->
  Double.le a b = true -> Double.le b c = true -> Double.le a c = true.
Proof.
  intros Ha Hb Hc Hab Hbc.
  apply ord_le_SFleb; try assumption.
  pose proof (SFleb_ord_le _ _ Ha Hb Hab). pose proof (SFleb_ord_le _ _ Hb Hc Hbc).
  lia.
Qed.

(** X15: the footprint terms never make a segment cheaper.  In the
    footprint-aware variant, between states inside the grid, with a
    positive finite adaptation time and a non-negative penalty, both the
    base cost and the cost are returned, and the cost is at least the base
    cost whenever the base cost is a non-negative number or +infinity. *)
Theorem footprint_never_cheaper o grid data x1 y1 w1 c1 x2 y2 w2 c2 :
  mpTravGrid o = Some grid -> mpTravData o = Some data ->
  mEnvType (mConfig o) = ENV_SHERPA ->
  in_bounds grid x1 y1 = true -> in_bounds grid x2 y2 = true ->
  0 < mNumFootprintClasses (mConfig o) < 2 ^ 31 ->
  0 <= c1 < 2 ^ 31 -> 0 <= c2 < 2 ^ 31 ->
  Double.pos_finite (mTimeToAdaptFootprint (mConfig o)) = true ->
  Double.nonneg (mAdaptFootprintPenalty (mConfig o)) = true ->
  exists base cost,
    StateCostIntegralObjective_motionCost o
      (SherpaState x1 y1 w1 c1) (SherpaState x2 y2 w2 c2) = ret base /\
    motionCost o (SherpaState x1 y1 w1 c1) (SherpaState x2 y2 w2 c2) = ret cost /\
    (Double.nonneg base = true -> Double.le base cost = true).
Proof.
  intros Hg Hd He Hin1 Hin2 HN H1 H2 HT HP.
  apply pos_finite_spec in HT. apply nonneg_spec in HP.
  destruct (motionCost_sherpa o grid data Hg Hd x1 y1 w1 c1 x2 y2 w2 c2 He Hin1 Hin2)
    as (base & Hb & Hm).
  cbv zeta in Hm. exists base. eexists. split; [exact Hb|]. split; [exact Hm|].
  intros Hbase. apply nonneg_spec in Hbase.
  destruct (Double.gt _ _); [apply le_nonneg_inf, Hbase|].
  pose proof (fp_time_nonneg (mConfig o) c1 c2 HN HT H1 H2) as Hfp.
  destruct (add_nonneg _ _ Hbase Hfp) as [Hv1 Hl1].
  unfold with_footprint_change.
  destruct (Double.gt _ _); [|exact Hl1].
  destruct (add_nonneg _ _ Hv1 HP) as [Hv2 Hl2].
  apply (le_trans_nonneg _ _ _ Hbase Hv1 Hv2 Hl1 Hl2).
Qed.

Lemma footprint_never_cheaper_witness :
  exists base cost,
    StateCostIntegralObjective_motionCost ex_quick_adapt
      (SherpaState (Double.of_int 1) (Double.of_int 1) Double.zero 0)
      (SherpaState (Double.of_int 6) (Double.of_int 1) Double.zero 1) = ret base /\
    motionCost ex_quick_adapt
      (SherpaState (Double.of_int 1) (Double.of_int 1) Double.zero 0)
      (SherpaState (Double.of_int 6) (Double.of_int 1) Double.zero 1) = ret cost /\
    (Double.nonneg base = true -> Double.le base cost = true).
Proof.
  apply (footprint_never_cheaper ex_quick_adapt
           (uniform_grid 10 10 Double.one Double.half) uniform_data);
    try reflexivity; simpl; lia.
Defined.

Lemma sub_self x : Double.is_finite x = true -> Double.sub x x = S754_zero false.
Proof.
  destruct x as [[]|[]| |s m e]; try discriminate; try reflexivity.
  intros _. unfold Double.sub, SFsub. rewrite Z.sub_diag. reflexivity.
Qed.

Lemma norm2d_self x y :
  Double.is_finite x = true -> Double.is_finite y = true ->
  norm2d x y x y = S754_zero false.
Proof.
  intros Hx Hy. unfold norm2d. cbv zeta. rewrite !sub_self by assumption.
  reflexivity.
Qed.

Lemma in_bounds_finite grid x y :
  in_bounds grid x y = true ->
  Double.is_finite x = true /\ Double.is_finite y = true.
Proof.
  intros Hin. destruct (in_bounds_check _ _ _ Hin) as (_ & ix & iy & Hx & Hy).
  split; [destruct x|destruct y]; try reflexivity; discriminate.
Qed.

Lemma mov_time_in_place grid cfg x y :
  Double.is_finite x = true -> Double.is_finite y = true ->
  PosFinite (getScaleX grid) -> PosFinite (mSpeed (mMobility cfg)) ->
  mov_time_sec grid cfg x y x y = S754_zero false.
Proof.
  intros Hx Hy Ps Pv. unfold mov_time_sec. cbv zeta.
  rewrite norm2d_self, mul_zero_l by assumption. apply div_zero_l, Pv.
Qed.

(** X16: the footprint cannot be changed on the spot.  In the
    footprint-aware variant, with positive finite scale and speed and an
    adaptation time in [2^-990, 2^990], the cost between two states at the
    same position inside the grid whose classes differ is +infinity,
    whatever their headings: the movement time is 0 and the footprint time
    is positive. *)
Theorem footprint_change_in_place o grid data x y w1 c1 w2 c2 :
  mpTravGrid o = Some grid -> mpTravData o = Some data ->
  mEnvType (mConfig o) = ENV_SHERPA ->
  in_bounds grid x y = true ->
  Double.pos_finite (getScaleX grid) = true ->
  Double.pos_finite (mSpeed (mMobility (mConfig o))) = true ->
  0 < mNumFootprintClasses (mConfig o) < 2 ^ 31 ->
  0 <= c1 < 2 ^ 31 -> 0 <= c2 < 2 ^ 31 -> c1 <> c2 ->
  Double.pos_finite (mTimeToAdaptFootprint (mConfig o)) = true ->
  within (-990) 990 (mTimeToAdaptFootprint (mConfig o)) = true ->
  motionCost o (SherpaState x y w1 c1) (SherpaState x y w2 c2) =
  ret Double.infinity.
Proof.
  intros Hg Hd He Hin Ps Pv HN H1 H2 Hne HT HTr.
  apply pos_finite_spec in Ps, Pv, HT.
  destruct (in_bounds_finite _ _ _ Hin) as [Fx Fy].
  destruct (motionCost_sherpa o grid data Hg Hd x y w1 c1 x y w2 c2 He Hin Hin)
    as (base & _ & Hm).
  cbv zeta in Hm. rewrite Hm, mov_time_in_place by assumption.
  pose proof (fp_time_gt_zero (mConfig o) c1 c2 HN HT HTr H1 H2 Hne) as Hpos.
  unfold Double.zero in Hpos. rewrite Hpos. reflexivity.
Qed.

Lemma footprint_change_in_place_witness :
  motionCost ex_footprint
    (SherpaState (Double.of_int 3) (Double.of_int 4) Double.zero 0)
    (SherpaState (Double.of_int 3) (Double.of_int 4) Double.one 1) =
  ret Double.infinity.
Proof.
  apply (footprint_change_in_place ex_footprint
           (uniform_grid 10 10 Double.one Double.half) uniform_data);
    try reflexivity; simpl; lia.
Defined.

(** ** Segments between impassable cells *)

Lemma add_max_max : Double.add Double.max Double.max = Double.infinity.
Proof. vm_compute. reflexivity. Qed.

Lemma mul_inf_r x : PosFinite x -> Double.mul x Double.infinity = Double.infinity.
Proof.
  destruct x as [| | |[] m e]; simpl; intros H; try tauto; destruct H;
    try discriminate; reflexivity.
Qed.

Lemma B2R_half : B2R Double.half = bpow (-1).
Proof.
  unfold Double.half. rewrite B2R_finite.
  change (Z.pos 4503599627370496) with (2 ^ 52).
  rewrite <- (bpow_IZR 52) by lia. rewrite <- bpow_add. reflexivity.
Qed.

Lemma half_mul_pos d :
  PosFinite d -> within (-1021) 1023 d = true ->
  PosFinite (Double.mul Double.half d).
Proof.
  intros Hd Hr.
  pose proof (within_B2R (-1021) 1023 d ltac:(lia) ltac:(lia) ltac:(lia) Hd Hr) as Bd.
  assert (Bh : (bpow (-1) <= B2R Double.half <= bpow (-1))%R)
    by (rewrite B2R_half; lra).
  assert (Ph : PosFinite Double.half) by (split; reflexivity).
  apply (mul_range _ _ (-1) (-1) (-1021) 1023 Ph Hd Bh Bd); lia.
Qed.

Lemma trapezoid_blocked d :
  PosFinite d -> within (-1021) 1023 d = true ->
  trapezoid Double.max Double.max d = Double.infinity.
Proof.
  intros Hd Hr. unfold trapezoid. rewrite add_max_max.
  apply mul_inf_r, half_mul_pos; assumption.
Qed.

Lemma trapezoid_blocked_zero d :
  Double.eq d Double.zero = true ->
  trapezoid Double.max Double.max d = S754_nan.
Proof.
  intros Hd. unfold trapezoid. rewrite add_max_max.
  destruct d as [[]|[]| |[] m e]; try discriminate Hd; reflexivity.
Qed.

(** X17: outside the footprint-aware variant, a segment whose two end
    points both cost the sentinel [DBL_MAX] (impassable cells, or speed 0)
    does not cost a large finite number: the sum of the two sentinels
    overflows, so the segment costs +infinity when the state-space distance
    is a positive double in [2^-1021, 2^1023], and NaN when the distance
    is zero. *)
Theorem blocked_segment o s1 s2 :
  mEnvType (mConfig o) <> ENV_SHERPA ->
  stateCost o s1 = ret Double.max -> stateCost o s2 = ret Double.max ->
  (Double.pos_finite (si_distance o s1 s2) = true ->
   within (-1021) 1023 (si_distance o s1 s2) = true ->
   motionCost o s1 s2 = ret Double.infinity) /\
  (Double.eq (si_distance o s1 s2) Double.zero = true ->
   motionCost o s1 s2 = ret S754_nan).
Proof.
  intros He H1 H2.
  assert (Hm : motionCost o s1 s2 =
               ret (trapezoid Double.max Double.max (si_distance o s1 s2))).
  { unfold motionCost, StateCostIntegralObjective_motionCost.
    rewrite H1, H2, !bind_ret.
    destruct (mEnvType (mConfig o)); try reflexivity. contradiction. }
  rewrite Hm. split.
  - intros Hp Hr. apply pos_finite_spec in Hp.
    rewrite trapezoid_blocked by assumption. reflexivity.
  - intros Hz. rewrite trapezoid_blocked_zero by assumption. reflexivity.
Qed.

Lemma blocked_segment_witness :
  motionCost ex_blocked_planar
    (SE2State (Double.of_int 1) (Double.of_int 1) Double.zero)
    (SE2State (Double.of_int 4) (Double.of_int 5) Double.zero) =
  ret Double.infinity /\
  motionCost ex_blocked_planar
    (SE2State (Double.of_int 1) (Double.of_int 1) Double.zero)
    (SE2State (Double.of_int 1) (Double.of_int 1) Double.one) =
  ret S754_nan.
Proof.
  split.
  - apply (proj1 (blocked_segment ex_blocked_planar
                    (SE2State (Double.of_int 1) (Double.of_int 1) Double.zero)
                    (SE2State (Double.of_int 4) (Double.of_int 5) Double.zero)
                    ltac:(discriminate) ltac:(vm_compute; reflexivity)
                    ltac:(vm_compute; reflexivity)));
      vm_compute; reflexivity.
  - apply (proj2 (blocked_segment ex_blocked_planar
                    (SE2State (Double.of_int 1) (Double.of_int 1) Double.zero)
                    (SE2State (Double.of_int 1) (Double.of_int 1) Double.one)
                    ltac:(discriminate) ltac:(vm_compute; reflexivity)
                    ltac:(vm_compute; reflexivity)));
      vm_compute; reflexivity.
Defined.
